(** * genaJam MIDI file player: the two state machines of the sketch

    A shallow embedding of [genajam_midi_file_player.ino].  The sketch is a
    cooperative loop that alternates between a file-selection machine
    ([lcdFSM]) and a playback machine ([midiFSM]).  Everything the sketch
    talks to (LCD, SD card, serial port, buttons, the MD_MIDIFile sequencer)
    is an external collaborator: its calls are recorded, in program order,
    in a trace, and the sequencer's answers come from an abstract interface.

    Integers keep the widths the sketch declares: [uint8_t] and [uint16_t]
    values are [Z] with the wrap-around written out ([u8], [u16]).  The
    sketch is built with [DEBUG_ON] equal to 0, so the [DEBUG] macros expand
    to nothing and are left out. *)

From Stdlib Require Import ZArith List String Ascii Bool Lia.
Import ListNotations.
Local Open Scope Z_scope.

(** ** Fixed-width integers *)

Definition u8 (z : Z) : Z := z mod 256.
Definition u16 (z : Z) : Z := z mod 65536.
(** A 16-bit pattern read as a signed [int] (what a [%d] conversion does). *)
Definition s16 (z : Z) : Z :=
  let r := u16 z in if r <? 32768 then r else r - 65536.

(** ** C strings *)

Definition NUL : ascii := Ascii.zero.

(** The C string held in a character buffer: the bytes before the first NUL. *)
Fixpoint cstr (buf : list ascii) : string :=
  match buf with
  | [] => EmptyString
  | c :: rest => if Ascii.eqb c NUL then EmptyString else String c (cstr rest)
  end.

Definition strlen (s : string) : Z := Z.of_nat (String.length s).

Definition digit (n : nat) : ascii := ascii_of_nat (48 + n).

(** Decimal digits of a natural number, most significant first. *)
Fixpoint digits_fuel (fuel n : nat) (acc : string) : string :=
  match fuel with
  | O => acc
  | S f =>
      let acc' := String (digit (Nat.modulo n 10)) acc in
      if Nat.ltb n 10 then acc' else digits_fuel f (Nat.div n 10) acc'
  end.

Definition digits (n : nat) : string := digits_fuel (S n) n EmptyString.

Fixpoint pad_left (c : ascii) (n : nat) (s : string) : string :=
  match n with
  | O => s
  | S k => String c (pad_left c k s)
  end.

(** [printf]'s [%<w>d] (space padded) and [%0<w>d] (zero padded, the sign
    first) for an [int] argument. *)
Definition fmt_d (zero : bool) (width : nat) (v : Z) : string :=
  let body := digits (Z.abs_nat v) in
  let neg := v <? 0 in
  let used := (String.length body + (if neg then 1 else 0))%nat in
  let fill := (width - used)%nat in
  if zero
  then (if neg then String "-" (pad_left "0" fill body) else pad_left "0" fill body)
  else pad_left " " fill (if neg then String "-" body else body).

(** ** Constants of the sketch *)

Definition LCD_ROWS : Z := 2.
Definition LCD_COLS : Z := 16.
Definition FNAME_SIZE : Z := 13.

(** ** Enumerated types for the state machines *)

Inductive lcd_state := LSBegin | LSSelect | LSShowFile.
Inductive midi_state := MSBegin | MSLoad | MSOpen | MSProcess | MSClose.
Inductive seq_state := LCDSeq | MIDISeq.

(** ** Collaborators *)

(** MD_MIDIFile's [midi_event]: [size] bytes of [data] are valid. *)
Record midi_event := mkEvent {
  ev_track : Z;
  ev_channel : Z;
  ev_size : Z;
  ev_data : list Z
}.

(** MD_UISwitch's [keyResult_t]. *)
Inductive keyResult :=
  KEY_NULL | KEY_DOWN | KEY_UP | KEY_PRESS | KEY_DPRESS | KEY_LONGPRESS | KEY_RPTPRESS.

Definition is_press (k : keyResult) : bool :=
  match k with KEY_PRESS => true | _ => false end.

(** What [BTN[i]->read()] answers during one pass of [loop()]; the index is
    the position in [LCD_KEYS]: 0 up, 1 down, 2 right, 3 left, 4 select. *)
Definition keys := nat -> keyResult.

Definition BTN_UP : nat := 0.
Definition BTN_DOWN : nat := 1.
Definition BTN_RIGHT : nat := 2.
Definition BTN_LEFT : nat := 3.
Definition BTN_SELECT : nat := 4.

Definition no_keys : keys := fun _ => KEY_NULL.
Definition only_key (b : nat) : keys :=
  fun i => if Nat.eqb i b then KEY_PRESS else KEY_NULL.

(** The calls the sketch makes on the sequencer object [SMF]. *)
Inductive smf_call :=
| SmfLoad (name : string)
| SmfIsEOF
| SmfGetNextEvent
| SmfGetTempo
| SmfGetTimeSignature
| SmfPause (b : bool)
| SmfRestart
| SmfClose.

(** Everything the sketch does to the outside, in program order. *)
Inductive event :=
| LcdSetCursor (col row : Z)
| LcdPrint (s : string)
| LcdPrintChar (c : ascii)
| LcdWrite (c : ascii)
| SerialWrite (b : Z)
| Smf (c : smf_call)
| BtnRead (i : nat)
| Delay (ms : Z).

(** The sequencer as the sketch uses it.  [smf_getNextEvent] also yields the
    MIDI events the library hands to the registered handler during the call. *)
Class Sequencer (S : Type) := {
  smf_load : string -> S -> Z * S;
  smf_isEOF : S -> bool;
  smf_getNextEvent : S -> bool * list midi_event * S;
  smf_getTempo : S -> Z;
  smf_getTimeSignature : S -> Z;
  smf_pause : bool -> S -> S;
  smf_restart : S -> S;
  smf_close : S -> S
}.

(** A small sequencer to run the machines on concrete inputs: [load] answers
    a fixed code, each step carries the flag [getNextEvent] returns and the
    events it hands to the handler, and a paused sequencer does not advance. *)
Record ref_smf := mkRef {
  rs_err : Z;
  rs_steps : list (bool * list midi_event);
  rs_pos : nat;
  rs_paused : bool
}.

#[export] Instance ref_sequencer : Sequencer ref_smf := {
  smf_load _ s := (rs_err s, mkRef (rs_err s) (rs_steps s) 0 false);
  smf_isEOF s := (List.length (rs_steps s) <=? rs_pos s)%nat;
  smf_getNextEvent s :=
    if rs_paused s then (false, [], s)
    else match nth_error (rs_steps s) (rs_pos s) with
         | Some (b, evs) =>
             (b, evs, mkRef (rs_err s) (rs_steps s) (Datatypes.S (rs_pos s)) (rs_paused s))
         | None => (false, [], s)
         end;
  smf_getTempo _ := 120;
  smf_getTimeSignature _ := 0x0404;
  smf_pause b s := mkRef (rs_err s) (rs_steps s) (rs_pos s) b;
  smf_restart s := mkRef (rs_err s) (rs_steps s) 0 (rs_paused s);
  smf_close s := mkRef (rs_err s) (rs_steps s) 0 false
}.

(** [MD_MIDIFile::E_OK]. *)
Definition E_OK : Z := 0.

(** An [SdFile] opened for reading. *)
Record SdFile := mkFile {
  f_open : bool;
  f_data : list ascii;
  f_pos : nat
}.

Definition closed_file : SdFile := mkFile false [] 0.

Definition file_seekSet (p : Z) (f : SdFile) : SdFile :=
  if f_open f && (Z.to_nat p <=? List.length (f_data f))%nat
  then mkFile true (f_data f) (Z.to_nat p)
  else f.

(** [read(buf, n)]: the bytes delivered (fewer than [n] at the end of the
    file, none from a closed file) and the file afterwards. *)
Definition file_read (n : Z) (f : SdFile) : list ascii * SdFile :=
  if f_open f
  then
    let got := firstn (Z.to_nat n) (skipn (f_pos f) (f_data f)) in
    (got, mkFile true (f_data f) (f_pos f + List.length got))
  else ([], f).

(** Storing [got] at the start of a buffer leaves the rest of it alone. *)
Definition store (got buf : list ascii) : list ascii :=
  got ++ skipn (List.length got) buf.

(** Record [i] of the play list file: [FNAME_SIZE] bytes at offset
    [FNAME_SIZE * i]. *)
Definition entry (data : list ascii) (i : Z) : list ascii :=
  firstn (Z.to_nat FNAME_SIZE) (skipn (Z.to_nat (FNAME_SIZE * i)) data).

Section Player.

Context {smf : Type} `{Sequencer smf}.

(** ** The state of the sketch

    The globals ([plCount], [fname], [SMF]), the function-local statics of
    [lcdFSM] ([lcd_s], [plIndex], [plFile]), of [midiFSM] ([midi_s]) and of
    [loop] ([loop_s]), the play list file as it is on the card, and the
    trace of what has been done to the outside so far. *)
Record world := mkWorld {
  plCount : Z;
  fname : list ascii;
  lcd_s : lcd_state;
  plIndex : Z;
  plFile : SdFile;
  midi_s : midi_state;
  loop_s : seq_state;
  SMF : smf;
  sd_playlist : option (list ascii);
  trace : list event
}.

Definition set_fname (v : list ascii) (w : world) : world :=
  mkWorld (plCount w) v (lcd_s w) (plIndex w) (plFile w) (midi_s w)
          (loop_s w) (SMF w) (sd_playlist w) (trace w).
Definition set_lcd_s (v : lcd_state) (w : world) : world :=
  mkWorld (plCount w) (fname w) v (plIndex w) (plFile w) (midi_s w)
          (loop_s w) (SMF w) (sd_playlist w) (trace w).
Definition set_plIndex (v : Z) (w : world) : world :=
  mkWorld (plCount w) (fname w) (lcd_s w) v (plFile w) (midi_s w)
          (loop_s w) (SMF w) (sd_playlist w) (trace w).
Definition set_plFile (v : SdFile) (w : world) : world :=
  mkWorld (plCount w) (fname w) (lcd_s w) (plIndex w) v (midi_s w)
          (loop_s w) (SMF w) (sd_playlist w) (trace w).
Definition set_midi_s (v : midi_state) (w : world) : world :=
  mkWorld (plCount w) (fname w) (lcd_s w) (plIndex w) (plFile w) v
          (loop_s w) (SMF w) (sd_playlist w) (trace w).
Definition set_loop_s (v : seq_state) (w : world) : world :=
  mkWorld (plCount w) (fname w) (lcd_s w) (plIndex w) (plFile w) (midi_s w)
          v (SMF w) (sd_playlist w) (trace w).
Definition set_SMF (v : smf) (w : world) : world :=
  mkWorld (plCount w) (fname w) (lcd_s w) (plIndex w) (plFile w) (midi_s w)
          (loop_s w) v (sd_playlist w) (trace w).
Definition log (es : list event) (w : world) : world :=
  mkWorld (plCount w) (fname w) (lcd_s w) (plIndex w) (plFile w) (midi_s w)
          (loop_s w) (SMF w) (sd_playlist w) (trace w ++ es).

(** ** The monad of the sketch

    A computation reads the buttons' answers for this pass, changes the
    world, and either returns or hangs in [while (fStop) ;]. *)
Inductive outcome (A : Type) :=
| Ret (a : A) (w : world)
| Halt (w : world).
Arguments Ret {A} a w.
Arguments Halt {A} w.

Definition M (A : Type) : Type := keys -> world -> outcome A.

Definition ret {A} (a : A) : M A := fun _ w => Ret a w.
Definition bind {A B} (m : M A) (f : A -> M B) : M B :=
  fun k w => match m k w with
             | Ret a w' => f a k w'
             | Halt w' => Halt w'
             end.
Definition hang {A} : M A := fun _ w => Halt w.
Definition gets {A} (f : world -> A) : M A := fun _ w => Ret (f w) w.
Definition modify (f : world -> world) : M unit := fun _ w => Ret tt (f w).
Definition emit (e : event) : M unit := modify (log [e]).

Notation "x <- m ;; k" := (bind m (fun x => k))
  (at level 61, m at next level, right associativity).
Notation "m ;; k" := (bind m (fun _ => k))
  (at level 61, right associativity).

(** ** Calls on the collaborators *)

Definition LCD_setCursor (col row : Z) : M unit := emit (LcdSetCursor col row).
Definition LCD_print (s : string) : M unit := emit (LcdPrint s).
Definition LCD_printChar (c : ascii) : M unit := emit (LcdPrintChar c).
Definition LCD_write (c : ascii) : M unit := emit (LcdWrite c).
Definition delay (ms : Z) : M unit := emit (Delay ms).

(** [Serial1.write(b)] takes a [uint8_t]. *)
Definition Serial1_write (b : Z) : M unit := emit (SerialWrite (u8 b)).

(** [Serial1.write(buf, n)]: [n] is a [size_t], the bytes go out in order.
    Only reads inside [buf] are modelled. *)
Definition Serial1_write_buf (buf : list Z) (n : Z) : M unit :=
  modify (log (map SerialWrite (firstn (Z.to_nat (u16 n)) buf))).

Definition BTN_read (i : nat) : M keyResult :=
  fun k w => Ret (k i) (log [BtnRead i] w).

Definition SMF_load (name : string) : M Z :=
  fun _ w =>
    let r := smf_load name (SMF w) in
    Ret (fst r) (log [Smf (SmfLoad name)] (set_SMF (snd r) w)).

Definition SMF_isEOF : M bool :=
  fun _ w => Ret (smf_isEOF (SMF w)) (log [Smf SmfIsEOF] w).

Definition SMF_getTempo : M Z :=
  fun _ w => Ret (smf_getTempo (SMF w)) (log [Smf SmfGetTempo] w).

Definition SMF_getTimeSignature : M Z :=
  fun _ w => Ret (smf_getTimeSignature (SMF w)) (log [Smf SmfGetTimeSignature] w).

Definition SMF_pause (b : bool) : M unit :=
  fun _ w => Ret tt (log [Smf (SmfPause b)] (set_SMF (smf_pause b (SMF w)) w)).

Definition SMF_restart : M unit :=
  fun _ w => Ret tt (log [Smf SmfRestart] (set_SMF (smf_restart (SMF w)) w)).

Definition SMF_close : M unit :=
  fun _ w => Ret tt (log [Smf SmfClose] (set_SMF (smf_close (SMF w)) w)).

Fixpoint for_each {A} (l : list A) (body : A -> M unit) : M unit :=
  match l with
  | [] => ret tt
  | a :: rest => body a ;; for_each rest body
  end.

(** ** MIDI callback *)

(** Called by the library when a file event has to go out on the MIDI
    interface. *)
Definition midiCallback (pev : midi_event) : M unit :=
  let d0 := nth 0 (ev_data pev) 0 in
  if (0x80 <=? d0) && (d0 <=? 0xe0)
  then
    Serial1_write (Z.lor d0 (ev_channel pev)) ;;
    Serial1_write_buf (skipn 1 (ev_data pev)) (ev_size pev - 1)
  else
    Serial1_write_buf (ev_data pev) (ev_size pev).

(** [getNextEvent()] runs the handler on every event that is due. *)
Definition SMF_getNextEvent : M bool :=
  r <- (fun _ w =>
          let r := smf_getNextEvent (SMF w) in
          Ret (fst r) (log [Smf SmfGetNextEvent] (set_SMF (snd r) w))) ;;
  for_each (snd r) midiCallback ;;
  ret (fst r).

(** The event [midiSilence] builds: all sound off (controller 120, value 0).
    Its [track] and [data[3]] are never written and never read. *)
Definition silence_event (ch : Z) : midi_event :=
  mkEvent 0 ch 3 [0xb0; 120; 0; 0].

(** [for (ev.channel = 0; ev.channel < 16; ev.channel++) midiCallback(&ev);] *)
Fixpoint silence_loop (fuel : nat) (ch : Z) : M unit :=
  match fuel with
  | O => ret tt
  | Datatypes.S f =>
      if ch <? 16
      then midiCallback (silence_event ch) ;; silence_loop f (u8 (ch + 1))
      else ret tt
  end.

(** Turn everything off on every channel. *)
Definition midiSilence : M unit := silence_loop 17 0.

(** ** LCD message helpers *)

(** [while (c++ < LCD_COLS) LCD.write(' ');] *)
Fixpoint clr_loop (fuel : nat) (c : Z) : M unit :=
  match fuel with
  | O => ret tt
  | Datatypes.S f =>
      if c <? LCD_COLS
      then LCD_write " " ;; clr_loop f (u8 (c + 1))
      else ret tt
  end.

(** Display a message on the LCD with optional spaces padding the end. *)
Definition LCDMessage (r c : Z) (msg : string) (clrEol : bool) : M unit :=
  LCD_setCursor c r ;;
  LCD_print msg ;;
  if clrEol
  then clr_loop (Datatypes.S (Z.to_nat LCD_COLS)) (u8 (c + strlen msg))
  else ret tt.

Definition LCDErrMessage (msg : string) (fStop : bool) : M unit :=
  LCDMessage 1 0 msg true ;;
  if fStop then hang else delay 2000.

(** ** The file-selection machine *)

(** [plFile.open(PLAYLIST_FILE, O_READ)]. *)
Definition plFile_open : M bool :=
  fun _ w =>
    match sd_playlist w with
    | Some d => Ret true (set_plFile (mkFile true d 0) w)
    | None => Ret false w
    end.

Definition plFile_seekSet (p : Z) : M unit :=
  modify (fun w => set_plFile (file_seekSet p (plFile w)) w).

(** [plFile.read(fname, n)]. *)
Definition plFile_read_fname (n : Z) : M unit :=
  modify (fun w =>
            let r := file_read n (plFile w) in
            set_fname (store (fst r) (fname w)) (set_plFile (snd r) w)).

(** Handle selecting a file name from the list (user input). *)
Definition lcdFSM (curSS : seq_state) : M seq_state :=
  s <- gets lcd_s ;;
  match s with
  | LSBegin =>
      LCDMessage 0 0 "Select play:" true ;;
      f <- gets plFile ;;
      (if negb (f_open f)
       then
         ok <- plFile_open ;;
         if negb ok then LCDErrMessage "PL file no open" true else ret tt
       else ret tt) ;;
      modify (set_lcd_s LSShowFile) ;;
      ret curSS
  | LSShowFile =>
      idx <- gets plIndex ;;
      plFile_seekSet (FNAME_SIZE * idx) ;;
      plFile_read_fname FNAME_SIZE ;;
      name <- gets (fun w => cstr (fname w)) ;;
      LCDMessage 1 0 name true ;;
      LCD_setCursor (LCD_COLS - 2) 1 ;;
      idx <- gets plIndex ;;
      LCD_printChar (if idx =? 0 then " " else "<") ;;
      idx <- gets plIndex ;;
      n <- gets plCount ;;
      LCD_printChar (if idx =? u16 (n - 1) then " " else ">") ;;
      modify (set_lcd_s LSSelect) ;;
      ret curSS
  | LSSelect =>
      k4 <- BTN_read 4 ;;
      if is_press k4 then                          (* Select *)
        modify (set_lcd_s LSBegin) ;;
        ret MIDISeq
      else
        k3 <- BTN_read 3 ;;
        if is_press k3 then                        (* Left *)
          idx <- gets plIndex ;;
          (if negb (idx =? 0)
           then modify (set_plIndex (u8 (idx - 1)))
           else ret tt) ;;
          modify (set_lcd_s LSShowFile) ;;
          ret curSS
        else
          k0 <- BTN_read 0 ;;
          if is_press k0 then                      (* Up *)
            modify (set_plIndex 0) ;;
            modify (set_lcd_s LSShowFile) ;;
            ret curSS
          else
            k1 <- BTN_read 1 ;;
            if is_press k1 then                    (* Down *)
              n <- gets plCount ;;
              modify (set_plIndex (u8 (u16 (n - 1)))) ;;
              modify (set_lcd_s LSShowFile) ;;
              ret curSS
            else
              k2 <- BTN_read 2 ;;
              if is_press k2 then                  (* Right *)
                idx <- gets plIndex ;;
                n <- gets plCount ;;
                (if negb (idx =? u16 (n - 1))
                 then modify (set_plIndex (u8 (idx + 1)))
                 else ret tt) ;;
                modify (set_lcd_s LSShowFile) ;;
                ret curSS
              else ret curSS
  end.

(** ** The playback machine *)

(** The two lines of fixed characters of the playback screen; the bytes 1
    and 0xdb are user-defined LCD characters. *)
Definition play_line0 : string :=
  String.append "   " (String (ascii_of_nat 1) EmptyString).
Definition play_line1 : string :=
  String.append "K  >  " (String (ascii_of_nat 219) EmptyString).

(** [LCDMessage(r, LCD_COLS-strlen(sBuf), sBuf, true)]: the column is
    computed in [size_t] and passed as a [uint8_t]. *)
Definition LCDMessage_right (r : Z) (sBuf : string) : M unit :=
  LCDMessage r (u8 (u16 (LCD_COLS - strlen sBuf))) sBuf true.

(** [case MSProcess], first statement: play the MIDI file, one event per
    pass, and leave for [MSClose] at the end of the data. *)
Definition play_step : M unit :=
  eof <- SMF_isEOF ;;
  if negb eof
  then
    upd <- SMF_getNextEvent ;;
    if upd
    then
      tempo <- SMF_getTempo ;;
      LCDMessage_right 0 (String "T" (fmt_d false 3 (s16 tempo))) ;;
      ts1 <- SMF_getTimeSignature ;;
      ts2 <- SMF_getTimeSignature ;;
      LCDMessage_right 1
        (String.append (String "S" (fmt_d false 0 (Z.shiftr ts1 8)))
           (String "/" (fmt_d false 0 (Z.land ts2 15))))
    else ret tt
  else modify (set_midi_s MSClose).

(** [case MSProcess], second statement: check the keys. *)
Definition check_keys : M unit :=
  k3 <- BTN_read 3 ;;
  if is_press k3 then midiSilence ;; SMF_restart            (* Rewind *)
  else
    k2 <- BTN_read 2 ;;
    if is_press k2 then modify (set_midi_s MSClose)         (* Stop *)
    else
      k0 <- BTN_read 0 ;;
      if is_press k0 then SMF_pause true ;; midiSilence     (* Pause *)
      else
        k1 <- BTN_read 1 ;;
        if is_press k1 then SMF_pause false                 (* Start *)
        else ret tt.

(** Handle playing the selected MIDI file. *)
Definition midiFSM (curSS : seq_state) : M seq_state :=
  s <- gets midi_s ;;
  match s with
  | MSBegin =>
      LCDMessage 0 0 play_line0 true ;;
      LCDMessage 1 0 play_line1 true ;;
      modify (set_midi_s MSLoad) ;;
      ret curSS
  | MSLoad =>
      name <- gets (fun w => cstr (fname w)) ;;
      err <- SMF_load name ;;
      (if err =? E_OK
       then modify (set_midi_s MSProcess)
       else
         LCDErrMessage (String.append "SMF error " (fmt_d true 3 err)) false ;;
         modify (set_midi_s MSClose)) ;;
      ret curSS
  | MSProcess =>
      play_step ;;
      check_keys ;;
      ret curSS
  | MSClose =>
      SMF_close ;;
      midiSilence ;;
      modify (set_midi_s MSBegin) ;;
      ret LCDSeq
  | MSOpen =>
      modify (set_midi_s MSBegin) ;;
      ret curSS
  end.

(** ** The dispatcher *)

(** One pass of [loop()]: run the machine that has control and adopt the
    mode it returns. *)
Definition loop : M unit :=
  s <- gets loop_s ;;
  match s with
  | LCDSeq => s' <- lcdFSM s ;; modify (set_loop_s s')
  | MIDISeq => s' <- midiFSM s ;; modify (set_loop_s s')
  end.

(** Successive passes, one key reading per pass; a hang ends the run. *)
Fixpoint run (ks : list keys) (w : world) : outcome unit :=
  match ks with
  | [] => Ret tt w
  | k :: rest =>
      match loop k w with
      | Ret _ w' => run rest w'
      | Halt w' => Halt w'
      end
  end.

(** The world when [setup()] returns: [n] names were written to the play
    list, the statics have their initialisers, the trace starts here. *)
Definition boot (n : Z) (card : option (list ascii)) (q : smf) : world :=
  mkWorld n (repeat NUL 14) LSBegin 0 closed_file MSBegin LCDSeq q card [].

(** ** Start-up: the play list file and [setup()] *)

Definition set_plCount (v : Z) (w : world) : world :=
  mkWorld v (fname w) (lcd_s w) (plIndex w) (plFile w) (midi_s w)
          (loop_s w) (SMF w) (sd_playlist w) (trace w).
Definition set_sd_playlist (v : option (list ascii)) (w : world) : world :=
  mkWorld (plCount w) (fname w) (lcd_s w) (plIndex w) (plFile w) (midi_s w)
          (loop_s w) (SMF w) v (trace w).

Definition MIDI_EXT : string := ".MID".

(** The C library's [tolower] and [strcasecmp] on ASCII. *)
Definition tolower (c : ascii) : ascii :=
  let n := nat_of_ascii c in
  if (65 <=? n)%nat && (n <=? 90)%nat then ascii_of_nat (n + 32) else c.

Fixpoint strcasecmp (a b : string) : Z :=
  match a, b with
  | EmptyString, EmptyString => 0
  | EmptyString, String y _ => 0 - Z.of_nat (nat_of_ascii (tolower y))
  | String x _, EmptyString => Z.of_nat (nat_of_ascii (tolower x))
  | String x a', String y b' =>
      let d := Z.of_nat (nat_of_ascii (tolower x))
               - Z.of_nat (nat_of_ascii (tolower y)) in
      if d =? 0 then strcasecmp a' b' else d
  end.

(** A directory entry as [openNext] finds it: the name is the one
    [getName(fname, FNAME_SIZE)] delivers. *)
Record dirent := mkDirent {
  d_name : string;
  d_isFile : bool
}.

(** The card as [setup()] finds it: whether [SD.begin] succeeds, whether the
    play list can be opened with [O_CREAT | O_WRITE], the entries of the
    working directory in [openNext] order, and what the local buffer of
    [createPlaylistFile] holds on entry. *)
Record card := mkCard {
  card_ok : bool;
  card_writable : bool;
  card_dir : list dirent;
  card_junk : list ascii
}.

(** [mFile.getName(fname, FNAME_SIZE)]: the name and its NUL go to the
    start of the buffer. *)
Definition getName (name : string) (buf : list ascii) : list ascii :=
  store (list_ascii_of_string name ++ [NUL]) buf.

(** [&fname[strlen(fname) - strlen(MIDI_EXT)]], the index computed in
    [size_t]; only reads inside the buffer are modelled. *)
Definition ext_of (buf : list ascii) : string :=
  cstr (skipn (Z.to_nat (u16 (strlen (cstr buf) - strlen MIDI_EXT))) buf).

(** The [while (mFile.openNext(...))] loop of [createPlaylistFile]: [out] is
    what has been written to the play list so far. *)
Fixpoint scan_dir (dir : list dirent) (buf out : list ascii) (count : Z)
  : list ascii * Z :=
  match dir with
  | [] => (out, count)
  | e :: rest =>
      let buf := getName (d_name e) buf in
      if d_isFile e
      then
        if strcasecmp MIDI_EXT (ext_of buf) =? 0
        then scan_dir rest buf
                      (out ++ firstn (Z.to_nat FNAME_SIZE) buf)
                      (u16 (count + 1))
        else scan_dir rest buf out count
      else scan_dir rest buf out count
  end.

(** Create a play list file on the SD card with the names of the files.
    The file is written from its start; what an older play list held beyond
    that stays. *)
Definition createPlaylistFile (cd : card) : M Z :=
  if negb (card_writable cd)
  then
    LCDErrMessage "PL create fail" true ;;
    ret 0
  else
    let r := scan_dir (card_dir cd) (card_junk cd) [] 0 in
    modify (fun w =>
              set_sd_playlist
                (Some (store (fst r)
                             (match sd_playlist w with
                              | Some old => old
                              | None => []
                              end))) w) ;;
    ret (snd r).

(** [setup()].  The calls that only configure a device ([Serial1.begin],
    the buttons' [begin], [LCD.begin], [clear], [noCursor], [createChar],
    [SMF.begin] and the two handler registrations) leave no mark here. *)
Definition setup (cd : card) : M unit :=
  LCDMessage 0 0 "  Midi  Player  " false ;;
  LCDMessage 1 0 "  ------------  " false ;;
  (if negb (card_ok cd) then LCDErrMessage "SD init fail!" true else ret tt) ;;
  n <- createPlaylistFile cd ;;
  modify (set_plCount n) ;;
  (if n =? 0 then LCDErrMessage "No files" true else ret tt) ;;
  delay 750.

(** The world at power-on: every global and static has its initialiser;
    [old] is the play list a previous run may have left on the card. *)
Definition power_on (old : option (list ascii)) (q : smf) : world :=
  mkWorld 0 (repeat NUL 14) LSBegin 0 closed_file MSBegin LCDSeq q old [].

End Player.

Arguments world : clear implicits.
Arguments outcome : clear implicits.
Arguments M : clear implicits.
Arguments Ret {smf A} a w.
Arguments Halt {smf A} w.

(** ** Reading the trace *)

(** The bytes that went out on [Serial1], in order. *)
Fixpoint serial_out (t : list event) : list Z :=
  match t with
  | [] => []
  | SerialWrite b :: rest => b :: serial_out rest
  | _ :: rest => serial_out rest
  end.

(** The calls made on the sequencer, in order. *)
Fixpoint smf_calls (t : list event) : list smf_call :=
  match t with
  | [] => []
  | Smf c :: rest => c :: smf_calls rest
  | _ :: rest => smf_calls rest
  end.

(** The buttons read, in order. *)
Fixpoint btn_reads (t : list event) : list nat :=
  match t with
  | [] => []
  | BtnRead i :: rest => i :: btn_reads rest
  | _ :: rest => btn_reads rest
  end.

(** The all-sound-off message for one channel, and for all sixteen. *)
Definition sound_off (ch : Z) : list Z := [Z.lor 0xb0 ch; 120; 0].
Definition all_sound_off : list Z :=
  flat_map sound_off (map Z.of_nat (seq 0 16)).

(** What [midiSilence] adds to the trace. *)
Definition silence_trace : list event := map SerialWrite all_sound_off.

(** The test of [midiCallback] for a status byte that carries a channel. *)
Definition is_channel_status (d0 : Z) : bool := (0x80 <=? d0) && (d0 <=? 0xe0).

(** ** Concrete play lists *)

(** A name as [createPlaylistFile] writes it: [FNAME_SIZE] bytes, NUL padded. *)
Definition record_of (name : string) : list ascii :=
  firstn (Z.to_nat FNAME_SIZE)
         (list_ascii_of_string name ++ repeat NUL (Z.to_nat FNAME_SIZE)).

Definition playlist_of (names : list string) : list ascii :=
  flat_map record_of names.

Definition abc : list string := ["A.MID"; "B.MID"; "C.MID"]%string.

Definition note_on : midi_event := mkEvent 0 2 3 [0x90; 60; 100; 0].

Definition tune : ref_smf :=
  mkRef 0 [(true, [note_on]); (false, []); (false, [note_on])] 0 false.

Definition broken_tune : ref_smf := mkRef 2 [] 0 false.

Definition boot_abc : world ref_smf :=
  boot 3 (Some (playlist_of abc)) tune.

(** The final world of a run, when it did not hang. *)
Definition final {smf} (o : outcome smf unit) : option (world smf) :=
  match o with
  | Ret _ w => Some w
  | Halt _ => None
  end.

(** ** What the helpers add to the trace *)

(** The bytes [midiCallback] sends for one event. *)
Definition callback_bytes (pev : midi_event) : list Z :=
  let d0 := nth 0 (ev_data pev) 0 in
  if is_channel_status d0
  then u8 (Z.lor d0 (ev_channel pev))
         :: firstn (Z.to_nat (u16 (ev_size pev - 1))) (skipn 1 (ev_data pev))
  else firstn (Z.to_nat (u16 (ev_size pev))) (ev_data pev).

(** The bytes the loop of [midiSilence] sends from channel [ch] on. *)
Fixpoint silence_bytes (fuel : nat) (ch : Z) : list Z :=
  match fuel with
  | O => []
  | S f =>
      if ch <? 16
      then callback_bytes (silence_event ch) ++ silence_bytes f (u8 (ch + 1))
      else []
  end.

Fixpoint clr_trace (fuel : nat) (c : Z) : list event :=
  match fuel with
  | O => []
  | S f => if c <? LCD_COLS then LcdWrite " " :: clr_trace f (u8 (c + 1)) else []
  end.

Definition message_trace (r c : Z) (msg : string) (clrEol : bool) : list event :=
  [LcdSetCursor c r; LcdPrint msg]
    ++ (if clrEol then clr_trace (S (Z.to_nat LCD_COLS)) (u8 (c + strlen msg)) else []).

Definition message_right_trace (r : Z) (sBuf : string) : list event :=
  message_trace r (u8 (u16 (LCD_COLS - strlen sBuf))) sBuf true.

(** ** Button priority *)

Definition nav_order : list nat := [BTN_SELECT; BTN_LEFT; BTN_UP; BTN_DOWN; BTN_RIGHT].
Definition play_order : list nat := [BTN_LEFT; BTN_RIGHT; BTN_UP; BTN_DOWN].

(** The first button of [order] that reports a press. *)
Fixpoint first_press (order : list nat) (k : keys) : option nat :=
  match order with
  | [] => None
  | b :: rest => if is_press (k b) then Some b else first_press rest k
  end.

(** The buttons read by a scan in [order]: all up to and including the
    first that reports a press. *)
Fixpoint scanned (order : list nat) (k : keys) : list nat :=
  match order with
  | [] => []
  | b :: rest => b :: (if is_press (k b) then [] else scanned rest k)
  end.

(** The keys with at most the button [b] pressed. *)
Definition just (b : option nat) : keys :=
  match b with
  | Some i => only_key i
  | None => no_keys
  end.

(** The cursor after a pass in [LSSelect] where the button [b] was acted
    on, as the statements of that case compute it. *)
Definition next_cursor (n idx : Z) (b : option nat) : Z :=
  match b with
  | Some 3%nat => if idx =? 0 then idx else u8 (idx - 1)
  | Some 0%nat => 0
  | Some 1%nat => u8 (u16 (n - 1))
  | Some 2%nat => if idx =? u16 (n - 1) then idx else u8 (idx + 1)
  | _ => idx
  end.

(** ** The world after the first statement of [case MSProcess] *)

Definition after {smf} {A} (o : outcome smf A) : world smf :=
  match o with
  | Ret _ w => w
  | Halt w => w
  end.

Definition result {smf} {A} (o : outcome smf A) : option A :=
  match o with
  | Ret a _ => Some a
  | Halt _ => None
  end.

Definition play_world {smf} `{Sequencer smf} (w : world smf) : world smf :=
  after (play_step no_keys w).

(** ** Worlds the sketch can be in *)

(** [setup()] returns only when [createPlaylistFile] counted at least one
    name; the play list then starts with one record per name (the file is
    opened with [O_CREAT | O_WRITE], so an older, longer list keeps its
    tail). *)
Definition card_holds (n : Z) (data : list ascii) : Prop :=
  1 <= n <= 65535 /\ FNAME_SIZE * n <= Z.of_nat (List.length data).

Inductive reachable {smf} `{Sequencer smf} : world smf -> Prop :=
| reach_boot n data q :
    card_holds n data -> reachable (boot n (Some data) q)
| reach_loop k w w' :
    reachable w -> loop k w = Ret tt w' -> reachable w'.

(** What holds in every reachable world. *)
Record inv {smf} (w : world smf) (data : list ascii) : Prop := mkInv {
  inv_card : sd_playlist w = Some data;
  inv_count : card_holds (plCount w) data;
  inv_index : 0 <= plIndex w <= 255 /\ plIndex w <= plCount w - 1;
  inv_file : f_open (plFile w) = true -> f_data (plFile w) = data;
  inv_open : lcd_s w <> LSBegin -> f_open (plFile w) = true;
  inv_tail : exists body, fname w = body ++ [NUL] /\ List.length body = 13%nat;
  inv_shown : lcd_s w = LSSelect -> fname w = entry data (plIndex w) ++ [NUL]
}.

(** The part of the world that belongs to the file-selection machine. *)
Definition same_nav {smf} (w w' : world smf) : Prop :=
  plCount w' = plCount w /\ fname w' = fname w /\ lcd_s w' = lcd_s w /\
  plIndex w' = plIndex w /\ plFile w' = plFile w /\
  sd_playlist w' = sd_playlist w.

(** An event as MD_MIDIFile delivers it: [uint8_t] fields, [size] bytes of
    [data] valid, and [size] below 255 so that the (empty) debug loop of the
    handler, whose [uint8_t] counter runs while [i <= size], ends. *)
Definition event_ok (pev : midi_event) : Prop :=
  0 <= ev_channel pev < 256 /\
  0 <= ev_size pev <= Z.of_nat (List.length (ev_data pev)) /\
  ev_size pev < 255 /\
  Forall (fun b => 0 <= b < 256) (ev_data pev).

(** A play list of 300 names, more than a [uint8_t] index can address. *)
Definition boot_300 : world ref_smf :=
  boot 300 (Some (playlist_of (repeat "X.MID"%string 300))) tune.

(** A playback session on [boot_abc] that has reached [MSProcess]. *)
Definition playing_abc : world ref_smf :=
  match final (run [no_keys; no_keys; only_key BTN_SELECT; no_keys; no_keys] boot_abc) with
  | Some w => w
  | None => boot_abc
  end.

(** The same session with a file the sequencer refuses, stopped in [MSLoad]. *)
Definition loading_broken : world ref_smf :=
  match final (run [no_keys; no_keys; only_key BTN_SELECT; no_keys]
                   (boot 3 (Some (playlist_of abc)) broken_tune)) with
  | Some w => w
  | None => boot_abc
  end.

(** [boot_abc] after the pass in [LSBegin], and after the one in
    [LSShowFile]: the first name is on the display, waiting for a key. *)
Definition showing_abc : world ref_smf := after (loop no_keys boot_abc).
Definition selecting_abc : world ref_smf := after (loop no_keys showing_abc).

(** [boot_300] waiting for a key. *)
Definition selecting_300 : world ref_smf :=
  after (run [no_keys; no_keys] boot_300).

(** Left and Down held together. *)
Definition left_and_down : keys :=
  fun i => if (Nat.eqb i BTN_LEFT || Nat.eqb i BTN_DOWN)%bool
           then KEY_PRESS else KEY_NULL.

(** ** The names a directory contributes to the play list *)

(** A name in lower case. *)
Definition lower (s : string) : string :=
  string_of_list_ascii (map tolower (list_ascii_of_string s)).

(** The last four characters are ".MID" in any letter case. *)
Definition ends_in_mid (name : string) : bool :=
  let l := list_ascii_of_string name in
  (4 <=? List.length l)%nat
  && String.eqb ".mid"
       (string_of_list_ascii (map tolower (skipn (List.length l - 4) l))).

Definition listed (dir : list dirent) : list string :=
  map d_name (filter (fun e => d_isFile e && ends_in_mid (d_name e)) dir).

(** A name as [getName] can deliver it into 13 bytes: at most 12
    characters, none of them NUL; a regular file's name has at least the
    four characters the extension test looks at. *)
Definition name_ok (e : dirent) : Prop :=
  (String.length (d_name e) <= 12)%nat /\
  ~ In NUL (list_ascii_of_string (d_name e)) /\
  (d_isFile e = true -> (4 <= String.length (d_name e))%nat).

Definition card_fine (cd : card) : Prop :=
  Forall name_ok (card_dir cd) /\ List.length (card_junk cd) = 14%nat.

(** A record that holds [name]: the name, its NUL, and whatever the buffer
    held behind it. *)
Definition holds_name (r : list ascii) (name : string) : Prop :=
  List.length r = 13%nat /\
  ~ In NUL (list_ascii_of_string name) /\
  exists tail, r = list_ascii_of_string name ++ NUL :: tail.

(** ** What a pass leaves of the other machine *)

(** The part of the world that belongs to playback, and what playback
    sends. *)
Definition same_play {smf} (w w' : world smf) : Prop :=
  midi_s w' = midi_s w /\ SMF w' = SMF w /\
  serial_out (trace w') = serial_out (trace w) /\
  smf_calls (trace w') = smf_calls (trace w).

(** The machine that does not have control is in its first state. *)
Definition parked {smf} (w : world smf) : Prop :=
  (loop_s w = LCDSeq -> midi_s w = MSBegin) /\
  (loop_s w = MIDISeq -> lcd_s w = LSBegin).

(** How often [getNextEvent] was called. *)
Fixpoint advances (l : list smf_call) : nat :=
  match l with
  | [] => 0
  | SmfGetNextEvent :: rest => S (advances rest)
  | _ :: rest => advances rest
  end.

(** A card with a play list of its own, three MIDI files in mixed case, a
    text file and a directory whose name ends in ".MID". *)
Definition card_abc : card :=
  mkCard true true
    [mkDirent "PLAYLIST.TXT" true; mkDirent "A.MID" true;
     mkDirent "NOTES.TXT" true; mkDirent "b.mid" true;
     mkDirent "SUB.MID" false; mkDirent "C.Mid" true]
    (repeat "x"%char 14).

(** A card without a MIDI file. *)
Definition card_empty : card :=
  mkCard true true [mkDirent "PLAYLIST.TXT" true] (repeat "x"%char 14).


(** A session on [boot_abc] that has played all of [tune]. *)
Definition finished_abc : world ref_smf :=
  after (run [no_keys; no_keys; no_keys] playing_abc).

(** [boot_300] after a Down press. *)
Definition long_last : world ref_smf :=
  after (run [no_keys; no_keys; only_key BTN_DOWN] boot_300).


Arguments u8 : simpl never.
Arguments u16 : simpl never.

(** ** Tactics for running the machines on a symbolic world *)

Ltac unfold_m :=
  unfold bind, BTN_read, plFile_open, plFile_seekSet, plFile_read_fname,
    LCD_setCursor, LCD_printChar, LCD_print, LCD_write, delay,
    SMF_load, SMF_isEOF, SMF_getTempo, SMF_getTimeSignature, SMF_pause,
    SMF_restart, SMF_close, emit, gets, modify, ret, hang.

Ltac same_world :=
  cbv beta iota delta
    [log set_fname set_lcd_s set_plIndex set_plFile set_midi_s set_loop_s
     set_SMF plCount fname lcd_s plIndex plFile midi_s loop_s SMF sd_playlist
     trace negb fst snd];
  rewrite <- ?app_assoc; cbn [app]; try reflexivity.

Ltac frame :=
  unfold same_nav;
  cbv beta iota delta
    [log set_fname set_lcd_s set_plIndex set_plFile set_midi_s set_loop_s
     set_SMF plCount fname lcd_s plIndex plFile midi_s loop_s SMF sd_playlist
     trace];
  repeat match goal with |- _ /\ _ => split end;
  try reflexivity; try discriminate.

Ltac world_fields :=
  cbv beta iota delta
    [log set_fname set_lcd_s set_plIndex set_plFile set_midi_s set_loop_s
     set_SMF set_plCount set_sd_playlist plCount fname lcd_s plIndex plFile
     midi_s loop_s SMF sd_playlist trace].

(** * Properties *)

Section Facts.

Context {smf : Type} `{Sequencer smf}.

Lemma log_log (a b : list event) (w : world smf) :
  log b (log a w) = log (a ++ b) w.
Proof. unfold log; simpl. now rewrite app_assoc. Qed.

Lemma log_nil (w : world smf) : log [] w = w.
Proof. destruct w; unfold log; simpl. now rewrite app_nil_r. Qed.

Lemma midiCallback_run (pev : midi_event) (k : keys) (w : world smf) :
  midiCallback pev k w = Ret tt (log (map SerialWrite (callback_bytes pev)) w).
Proof.
  unfold midiCallback, callback_bytes, is_channel_status.
  destruct ((128 <=? nth 0 (ev_data pev) 0) && (nth 0 (ev_data pev) 0 <=? 224)).
  - unfold bind, Serial1_write, Serial1_write_buf, emit, modify.
    now rewrite log_log.
  - reflexivity.
Qed.

Lemma for_each_callback (evs : list midi_event) (k : keys) (w : world smf) :
  for_each evs midiCallback k w
  = Ret tt (log (map SerialWrite (flat_map callback_bytes evs)) w).
Proof.
  revert w; induction evs as [|e evs IH]; intro w; simpl.
  - unfold ret. now rewrite log_nil.
  - unfold bind. rewrite midiCallback_run, IH, log_log.
    now rewrite map_app.
Qed.

Lemma silence_loop_run (fuel : nat) (ch : Z) (k : keys) (w : world smf) :
  silence_loop fuel ch k w
  = Ret tt (log (map SerialWrite (silence_bytes fuel ch)) w).
Proof.
  revert ch w; induction fuel as [|f IH]; intros ch w;
    cbn [silence_loop silence_bytes map].
  - unfold ret. now rewrite log_nil.
  - destruct (ch <? 16); cbn [map].
    + unfold bind. rewrite midiCallback_run, IH, log_log.
      now rewrite map_app.
    + unfold ret. now rewrite log_nil.
Qed.

Lemma silence_bytes_all : silence_bytes 17 0 = all_sound_off.
Proof. reflexivity. Qed.

Lemma midiSilence_run (k : keys) (w : world smf) :
  midiSilence k w = Ret tt (log silence_trace w).
Proof.
  unfold midiSilence, silence_trace.
  now rewrite silence_loop_run, silence_bytes_all.
Qed.

Lemma clr_loop_run (fuel : nat) (c : Z) (k : keys) (w : world smf) :
  clr_loop fuel c k w = Ret tt (log (clr_trace fuel c) w).
Proof.
  revert c w; induction fuel as [|f IH]; intros c w;
    cbn [clr_loop clr_trace].
  - unfold ret. now rewrite log_nil.
  - destruct (c <? LCD_COLS).
    + unfold bind, LCD_write, emit, modify. now rewrite IH, log_log.
    + unfold ret. now rewrite log_nil.
Qed.

Lemma LCDMessage_run (r c : Z) (msg : string) (clrEol : bool)
      (k : keys) (w : world smf) :
  LCDMessage r c msg clrEol k w = Ret tt (log (message_trace r c msg clrEol) w).
Proof.
  unfold LCDMessage, message_trace, bind, LCD_setCursor, LCD_print, emit, modify.
  destruct clrEol.
  - now rewrite clr_loop_run, !log_log.
  - unfold ret. now rewrite !log_log.
Qed.

Lemma LCDMessage_right_run (r : Z) (sBuf : string) (k : keys) (w : world smf) :
  LCDMessage_right r sBuf k w = Ret tt (log (message_right_trace r sBuf) w).
Proof. apply LCDMessage_run. Qed.

(** *** The file-selection machine, state by state *)

Lemma lcd_begin (k : keys) (cur : seq_state) (w : world smf) :
  lcd_s w = LSBegin ->
  lcdFSM cur k w =
  let w1 := log (message_trace 0 0 "Select play:" true) w in
  if f_open (plFile w)
  then Ret cur (set_lcd_s LSShowFile w1)
  else match sd_playlist w with
       | Some d => Ret cur (set_lcd_s LSShowFile (set_plFile (mkFile true d 0) w1))
       | None => Halt (log (message_trace 1 0 "PL file no open" true) w1)
       end.
Proof.
  intro Hs. unfold lcdFSM, bind at 1, gets at 1. rewrite Hs.
  unfold bind at 1. rewrite LCDMessage_run.
  unfold_m. cbn [plFile log].
  destruct (f_open (plFile w)); cbn [negb]; [reflexivity|].
  cbn [sd_playlist log].
  destruct (sd_playlist w); cbn [negb]; [reflexivity|].
  unfold LCDErrMessage, bind. now rewrite LCDMessage_run.
Qed.

(** The world after [case LSShowFile]. *)
Lemma lcd_showfile (k : keys) (cur : seq_state) (w : world smf) :
  lcd_s w = LSShowFile ->
  lcdFSM cur k w =
  let f := file_seekSet (FNAME_SIZE * plIndex w) (plFile w) in
  let r := file_read FNAME_SIZE f in
  let buf := store (fst r) (fname w) in
  Ret cur
    (set_lcd_s LSSelect
       (log (message_trace 1 0 (cstr buf) true
               ++ [LcdSetCursor (LCD_COLS - 2) 1;
                   LcdPrintChar (if plIndex w =? 0 then " " else "<");
                   LcdPrintChar (if plIndex w =? u16 (plCount w - 1)
                                 then " " else ">")])
          (set_fname buf (set_plFile (snd r) w)))).
Proof.
  intro Hs. unfold lcdFSM, bind at 1, gets at 1. rewrite Hs.
  unfold_m. cbv beta. rewrite LCDMessage_run.
  cbv zeta. same_world.
Qed.

Lemma lcd_select (k : keys) (cur : seq_state) (w : world smf) :
  lcd_s w = LSSelect ->
  lcdFSM cur k w =
  let n := plCount w in
  let idx := plIndex w in
  let rd := fun l => log (map BtnRead l) w in
  if is_press (k 4%nat) then
    Ret MIDISeq (set_lcd_s LSBegin (rd [4]%nat))
  else if is_press (k 3%nat) then
    Ret cur (set_lcd_s LSShowFile
               (set_plIndex (if idx =? 0 then idx else u8 (idx - 1))
                            (rd [4; 3]%nat)))
  else if is_press (k 0%nat) then
    Ret cur (set_lcd_s LSShowFile (set_plIndex 0 (rd [4; 3; 0]%nat)))
  else if is_press (k 1%nat) then
    Ret cur (set_lcd_s LSShowFile
               (set_plIndex (u8 (u16 (n - 1))) (rd [4; 3; 0; 1]%nat)))
  else if is_press (k 2%nat) then
    Ret cur (set_lcd_s LSShowFile
               (set_plIndex (if idx =? u16 (n - 1) then idx else u8 (idx + 1))
                            (rd [4; 3; 0; 1; 2]%nat)))
  else Ret cur (rd [4; 3; 0; 1; 2]%nat).
Proof.
  intro Hs. unfold lcdFSM, bind at 1, gets at 1. rewrite Hs.
  unfold_m. cbv beta zeta. cbn [map].
  destruct (is_press (k 4%nat)); [same_world|].
  destruct (is_press (k 3%nat)).
  { change (plIndex (log [BtnRead 3] (log [BtnRead 4] w))) with (plIndex w).
    destruct (plIndex w =? 0); same_world. }
  destruct (is_press (k 0%nat)); [same_world|].
  destruct (is_press (k 1%nat)); [same_world|].
  destruct (is_press (k 2%nat)).
  { set (w4 := log [BtnRead 2] _).
    change (plIndex w4) with (plIndex w).
    change (plCount w4) with (plCount w). subst w4.
    destruct (plIndex w =? u16 (plCount w - 1)); same_world. }
  destruct w; same_world.
Qed.

(** *** The playback machine, state by state *)

Lemma SMF_getNextEvent_run (k : keys) (w : world smf) :
  SMF_getNextEvent k w =
  let r := smf_getNextEvent (SMF w) in
  Ret (fst (fst r))
      (log (Smf SmfGetNextEvent
              :: map SerialWrite (flat_map callback_bytes (snd (fst r))))
           (set_SMF (snd r) w)).
Proof.
  unfold SMF_getNextEvent, bind. cbv zeta.
  rewrite for_each_callback. unfold ret. now rewrite log_log.
Qed.

Lemma play_step_run (k : keys) (w : world smf) :
  play_step k w =
  if smf_isEOF (SMF w)
  then Ret tt (set_midi_s MSClose (log [Smf SmfIsEOF] w))
  else
    let r := smf_getNextEvent (SMF w) in
    let w1 :=
      log (Smf SmfIsEOF :: Smf SmfGetNextEvent
             :: map SerialWrite (flat_map callback_bytes (snd (fst r))))
          (set_SMF (snd r) w) in
    if fst (fst r)
    then
      let q := snd r in
      Ret tt
        (log ([Smf SmfGetTempo]
                ++ message_right_trace 0
                     (String "T" (fmt_d false 3 (s16 (smf_getTempo q))))
                ++ [Smf SmfGetTimeSignature; Smf SmfGetTimeSignature]
                ++ message_right_trace 1
                     (String.append
                        (String "S"
                           (fmt_d false 0 (Z.shiftr (smf_getTimeSignature q) 8)))
                        (String "/"
                           (fmt_d false 0 (Z.land (smf_getTimeSignature q) 15)))))
             w1)
    else Ret tt w1.
Proof.
  unfold play_step, bind at 1, SMF_isEOF.
  destruct (smf_isEOF (SMF w)); cbn [negb].
  - unfold modify. same_world.
  - unfold bind at 1. rewrite SMF_getNextEvent_run. cbv zeta.
    change (SMF (log [Smf SmfIsEOF] w)) with (SMF w).
    destruct (smf_getNextEvent (SMF w)) as [[b evs] q]. cbn [fst snd].
    destruct b.
    + unfold bind, SMF_getTempo, SMF_getTimeSignature. cbv beta iota.
      rewrite LCDMessage_right_run. cbv beta iota.
      rewrite LCDMessage_right_run. cbv beta iota.
      same_world.
    + unfold ret. same_world.
Qed.

Lemma play_step_world (k : keys) (w : world smf) :
  play_step k w = Ret tt (play_world w).
Proof.
  unfold play_world. rewrite (play_step_run no_keys), play_step_run.
  destruct (smf_isEOF (SMF w)); [reflexivity|]. cbv zeta.
  destruct (smf_getNextEvent (SMF w)) as [[b evs] q]. cbn [fst snd].
  destruct b; reflexivity.
Qed.

Lemma check_keys_run (k : keys) (w : world smf) :
  check_keys k w =
  let rd := fun l => map BtnRead l in
  Ret tt
    (if is_press (k 3%nat) then
       set_SMF (smf_restart (SMF w))
               (log (rd [3]%nat ++ silence_trace ++ [Smf SmfRestart]) w)
     else if is_press (k 2%nat) then
       set_midi_s MSClose (log (rd [3; 2]%nat) w)
     else if is_press (k 0%nat) then
       set_SMF (smf_pause true (SMF w))
               (log (rd [3; 2; 0]%nat ++ [Smf (SmfPause true)] ++ silence_trace) w)
     else if is_press (k 1%nat) then
       set_SMF (smf_pause false (SMF w))
               (log (rd [3; 2; 0; 1]%nat ++ [Smf (SmfPause false)]) w)
     else log (rd [3; 2; 0; 1]%nat) w).
Proof.
  unfold check_keys, bind at 1, BTN_read at 1. cbv zeta. cbn [map].
  destruct (is_press (k 3%nat)).
  { unfold bind, SMF_restart. rewrite midiSilence_run. same_world. }
  unfold bind at 1, BTN_read at 1.
  destruct (is_press (k 2%nat)).
  { unfold modify. same_world. }
  unfold bind at 1, BTN_read at 1.
  destruct (is_press (k 0%nat)).
  { unfold bind, SMF_pause. rewrite midiSilence_run. same_world. }
  unfold bind at 1, BTN_read at 1.
  destruct (is_press (k 1%nat)).
  { unfold SMF_pause. same_world. }
  unfold ret. same_world.
Qed.

Lemma midi_begin (k : keys) (cur : seq_state) (w : world smf) :
  midi_s w = MSBegin ->
  midiFSM cur k w =
  Ret cur (set_midi_s MSLoad
             (log (message_trace 0 0 play_line0 true
                     ++ message_trace 1 0 play_line1 true) w)).
Proof.
  intro Hs. unfold midiFSM, bind at 1, gets at 1. rewrite Hs.
  unfold bind. rewrite !LCDMessage_run. unfold modify, ret.
  now rewrite log_log.
Qed.

Lemma midi_load (k : keys) (cur : seq_state) (w : world smf) :
  midi_s w = MSLoad ->
  midiFSM cur k w =
  let name := cstr (fname w) in
  let r := smf_load name (SMF w) in
  if fst r =? E_OK
  then Ret cur (set_midi_s MSProcess
                  (set_SMF (snd r) (log [Smf (SmfLoad name)] w)))
  else Ret cur (set_midi_s MSClose
                  (set_SMF (snd r)
                     (log ([Smf (SmfLoad name)]
                             ++ message_trace 1 0
                                  (String.append "SMF error " (fmt_d true 3 (fst r)))
                                  true
                             ++ [Delay 2000]) w))).
Proof.
  intro Hs. unfold midiFSM, bind at 1, gets at 1. rewrite Hs.
  unfold bind at 1, gets at 1. unfold bind at 1, SMF_load at 1. cbv zeta.
  destruct (smf_load (cstr (fname w)) (SMF w)) as [err q]. cbn [fst snd].
  destruct (err =? E_OK).
  - unfold bind, modify, ret. same_world.
  - unfold LCDErrMessage, bind. rewrite LCDMessage_run.
    unfold delay, emit, modify, ret. same_world.
Qed.

Lemma midi_process (k : keys) (cur : seq_state) (w : world smf) :
  midi_s w = MSProcess ->
  midiFSM cur k w =
  match check_keys k (play_world w) with
  | Ret _ w' => Ret cur w'
  | Halt w' => Halt w'
  end.
Proof.
  intro Hs. unfold midiFSM, bind at 1, gets at 1. rewrite Hs.
  unfold bind. rewrite play_step_world.
  destruct (check_keys k (play_world w)); reflexivity.
Qed.

Lemma midi_close (k : keys) (cur : seq_state) (w : world smf) :
  midi_s w = MSClose ->
  midiFSM cur k w =
  Ret LCDSeq (set_midi_s MSBegin
                (set_SMF (smf_close (SMF w))
                   (log (Smf SmfClose :: silence_trace) w))).
Proof.
  intro Hs. unfold midiFSM, bind at 1, gets at 1. rewrite Hs.
  unfold bind, SMF_close. rewrite midiSilence_run.
  unfold modify, ret. same_world.
Qed.

Lemma midi_open (k : keys) (cur : seq_state) (w : world smf) :
  midi_s w = MSOpen ->
  midiFSM cur k w = Ret cur (set_midi_s MSBegin w).
Proof.
  intro Hs. unfold midiFSM, bind at 1, gets at 1. now rewrite Hs.
Qed.

Lemma loop_lcd (k : keys) (w : world smf) :
  loop_s w = LCDSeq ->
  loop k w = match lcdFSM LCDSeq k w with
             | Ret s' w' => Ret tt (set_loop_s s' w')
             | Halt w' => Halt w'
             end.
Proof.
  intro Hs. unfold loop, bind at 1, gets at 1. rewrite Hs.
  unfold bind. destruct (lcdFSM LCDSeq k w); reflexivity.
Qed.

Lemma loop_midi (k : keys) (w : world smf) :
  loop_s w = MIDISeq ->
  loop k w = match midiFSM MIDISeq k w with
             | Ret s' w' => Ret tt (set_loop_s s' w')
             | Halt w' => Halt w'
             end.
Proof.
  intro Hs. unfold loop, bind at 1, gets at 1. rewrite Hs.
  unfold bind. destruct (midiFSM MIDISeq k w); reflexivity.
Qed.

(** *** Arithmetic of the fixed-width fields *)

Lemma u8_small (z : Z) : 0 <= z < 256 -> u8 z = z.
Proof. intro Hz. unfold u8. now apply Z.mod_small. Qed.

Lemma u16_small (z : Z) : 0 <= z < 65536 -> u16 z = z.
Proof. intro Hz. unfold u16. now apply Z.mod_small. Qed.

Lemma u8_u16 (z : Z) : u8 (u16 z) = z mod 256.
Proof.
  unfold u8, u16.
  apply Z.mod_mod_divide. exists 256. reflexivity.
Qed.

Lemma u8_range (z : Z) : 0 <= u8 z <= 255.
Proof. unfold u8. pose proof (Z.mod_pos_bound z 256). lia. Qed.

Lemma lor_byte (a b : Z) :
  0 <= a < 256 -> 0 <= b < 256 -> 0 <= Z.lor a b < 256.
Proof.
  intros Ha Hb.
  assert (Hn : 0 <= Z.lor a b) by (apply Z.lor_nonneg; lia).
  split; [exact Hn|].
  destruct (Z.eq_dec (Z.lor a b) 0) as [E|E]; [lia|].
  change 256 with (2 ^ 8).
  apply Z.log2_lt_pow2; [lia|].
  rewrite Z.log2_lor by lia.
  assert (La : Z.log2 a < 8).
  { destruct (Z.eq_dec a 0) as [->|]; [cbn; lia|].
    apply Z.log2_lt_pow2; [lia|]. change (2 ^ 8) with 256. lia. }
  assert (Lb : Z.log2 b < 8).
  { destruct (Z.eq_dec b 0) as [->|]; [cbn; lia|].
    apply Z.log2_lt_pow2; [lia|]. change (2 ^ 8) with 256. lia. }
  lia.
Qed.

Lemma nth0_byte (l : list Z) :
  Forall (fun b => 0 <= b < 256) l -> 0 <= nth 0 l 0 < 256.
Proof. intros [|x l' Hx _]; cbn; lia. Qed.

Lemma first_press_nav (k : keys) (b : nat) :
  first_press nav_order k = Some b ->
  match b with
  | 4%nat => is_press (k 4%nat) = true
  | 3%nat => is_press (k 4%nat) = false /\ is_press (k 3%nat) = true
  | 0%nat => is_press (k 4%nat) = false /\ is_press (k 3%nat) = false /\
             is_press (k 0%nat) = true
  | 1%nat => is_press (k 4%nat) = false /\ is_press (k 3%nat) = false /\
             is_press (k 0%nat) = false /\ is_press (k 1%nat) = true
  | 2%nat => is_press (k 4%nat) = false /\ is_press (k 3%nat) = false /\
             is_press (k 0%nat) = false /\ is_press (k 1%nat) = false /\
             is_press (k 2%nat) = true
  | _ => False
  end.
Proof.
  unfold nav_order, BTN_SELECT, BTN_LEFT, BTN_UP, BTN_DOWN, BTN_RIGHT.
  cbn [first_press].
  destruct (is_press (k 4%nat)); [intros [= <-]; reflexivity|].
  destruct (is_press (k 3%nat)); [intros [= <-]; auto|].
  destruct (is_press (k 0%nat)); [intros [= <-]; auto|].
  destruct (is_press (k 1%nat)); [intros [= <-]; auto|].
  destruct (is_press (k 2%nat)); [intros [= <-]; auto 6|].
  discriminate.
Qed.

Lemma first_press_play (k : keys) (b : nat) :
  first_press play_order k = Some b ->
  match b with
  | 3%nat => is_press (k 3%nat) = true
  | 2%nat => is_press (k 3%nat) = false /\ is_press (k 2%nat) = true
  | 0%nat => is_press (k 3%nat) = false /\ is_press (k 2%nat) = false /\
             is_press (k 0%nat) = true
  | 1%nat => is_press (k 3%nat) = false /\ is_press (k 2%nat) = false /\
             is_press (k 0%nat) = false /\ is_press (k 1%nat) = true
  | _ => False
  end.
Proof.
  unfold play_order, BTN_LEFT, BTN_UP, BTN_DOWN, BTN_RIGHT.
  cbn [first_press].
  destruct (is_press (k 3%nat)); [intros [= <-]; reflexivity|].
  destruct (is_press (k 2%nat)); [intros [= <-]; auto|].
  destruct (is_press (k 0%nat)); [intros [= <-]; auto|].
  destruct (is_press (k 1%nat)); [intros [= <-]; auto|].
  discriminate.
Qed.

(** *** The MIDI callback *)

(** C5: an event whose first data byte passes the handler's channel-status
    test goes out as that byte OR-ed with the channel, followed by the other
    [size - 1] data bytes; any other event goes out as its [size] data bytes
    unchanged; in both cases exactly [size] bytes are sent. *)
Theorem midiCallback_forwards (pev : midi_event) (k : keys) (w : world smf) :
  event_ok pev ->
  (is_channel_status (nth 0 (ev_data pev) 0) = true -> 1 <= ev_size pev) ->
  exists bytes,
    midiCallback pev k w = Ret tt (log (map SerialWrite bytes) w) /\
    serial_out (map SerialWrite bytes) = bytes /\
    Z.of_nat (List.length bytes) = ev_size pev /\
    bytes =
      if is_channel_status (nth 0 (ev_data pev) 0)
      then Z.lor (nth 0 (ev_data pev) 0) (ev_channel pev)
             :: firstn (Z.to_nat (ev_size pev - 1)) (tl (ev_data pev))
      else firstn (Z.to_nat (ev_size pev)) (ev_data pev).
Proof.
  intros (Hch & Hsz & Hsz8 & Hdata) Hfirst.
  exists (callback_bytes pev).
  split; [apply midiCallback_run|].
  split.
  { induction (callback_bytes pev) as [|b l IH]; cbn; [reflexivity|now rewrite IH]. }
  unfold callback_bytes.
  destruct (is_channel_status (nth 0 (ev_data pev) 0)) eqn:Est.
  - specialize (Hfirst eq_refl).
    rewrite u8_small by (apply lor_byte; [now apply nth0_byte|exact Hch]).
    rewrite u16_small by lia.
    assert (Hskip : skipn 1 (ev_data pev) = tl (ev_data pev))
      by (destruct (ev_data pev); reflexivity).
    rewrite Hskip. split; [|reflexivity].
    cbn [List.length]. rewrite length_firstn.
    assert (Htl : List.length (tl (ev_data pev)) = (List.length (ev_data pev) - 1)%nat)
      by (destruct (ev_data pev); cbn; lia).
    rewrite Htl. lia.
  - rewrite u16_small by lia. split; [|reflexivity].
    rewrite length_firstn. lia.
Qed.

(** *** The display of the current name *)

(** C8: with [n >= 1] names and the cursor at [c], [case LSShowFile] ends by
    printing the two markers at column 14 of row 1; the left one is a blank
    exactly when [c = 0] (otherwise '<'), the right one is a blank exactly
    when [c = n - 1] (otherwise '>'), and with a single name both are
    blanks. *)
Theorem showfile_markers (k : keys) (cur : seq_state) (w : world smf) :
  lcd_s w = LSShowFile ->
  1 <= plCount w <= 65535 ->
  0 <= plIndex w <= 255 ->
  exists w' pre l r,
    lcdFSM cur k w = Ret cur w' /\
    trace w' = trace w ++ pre
                 ++ [LcdSetCursor 14 1; LcdPrintChar l; LcdPrintChar r] /\
    (l = " "%char <-> plIndex w = 0) /\
    (l <> " "%char -> l = "<"%char) /\
    (r = " "%char <-> plIndex w = plCount w - 1) /\
    (r <> " "%char -> r = ">"%char) /\
    (plCount w = 1 -> plIndex w <= plCount w - 1 ->
     l = " "%char /\ r = " "%char).
Proof.
  intros Hs Hn Hc.
  rewrite lcd_showfile by exact Hs. cbv zeta.
  rewrite (u16_small (plCount w - 1)) by lia.
  set (buf := store _ (fname w)).
  eexists.
  exists (message_trace 1 0 (cstr buf) true).
  exists (if plIndex w =? 0 then " "%char else "<"%char).
  exists (if plIndex w =? plCount w - 1 then " "%char else ">"%char).
  split; [reflexivity|].
  split; [reflexivity|].
  destruct (Z.eqb_spec (plIndex w) 0) as [E0|E0];
    destruct (Z.eqb_spec (plIndex w) (plCount w - 1)) as [E1|E1];
    repeat split; intros; try congruence; try reflexivity; try lia; try discriminate.
Qed.

(** *** The cursor *)

Lemma select_cursor (k : keys) (cur : seq_state) (w : world smf) :
  lcd_s w = LSSelect ->
  exists s' w',
    lcdFSM cur k w = Ret s' w' /\
    plIndex w' = next_cursor (plCount w) (plIndex w) (first_press nav_order k) /\
    plCount w' = plCount w.
Proof.
  intro Hs. rewrite lcd_select by exact Hs. cbv zeta.
  unfold nav_order, BTN_SELECT, BTN_LEFT, BTN_UP, BTN_DOWN, BTN_RIGHT.
  cbn [first_press].
  destruct (is_press (k 4%nat)); [do 2 eexists; repeat split|].
  destruct (is_press (k 3%nat)); [do 2 eexists; repeat split|].
  destruct (is_press (k 0%nat)); [do 2 eexists; repeat split|].
  destruct (is_press (k 1%nat)); [do 2 eexists; repeat split|].
  destruct (is_press (k 2%nat)); do 2 eexists; repeat split.
Qed.

(** C10: the cursor is a [uint8_t] and the count a [uint16_t].  After any
    pass in [LSSelect] the cursor is again below 256; a Down press leaves it
    at [(n - 1) mod 256]; with more than 256 names the cursor never equals
    [n - 1], and a Right press at 255 takes it to 0. *)
Theorem cursor_mod_256 (k : keys) (cur : seq_state) (w : world smf) :
  lcd_s w = LSSelect ->
  0 <= plCount w <= 65535 ->
  0 <= plIndex w <= 255 ->
  exists s' w',
    lcdFSM cur k w = Ret s' w' /\
    0 <= plIndex w' <= 255 /\
    (first_press nav_order k = Some BTN_DOWN ->
     plIndex w' = (plCount w - 1) mod 256) /\
    (256 < plCount w -> plIndex w <> plCount w - 1) /\
    (256 < plCount w -> plIndex w = 255 ->
     first_press nav_order k = Some BTN_RIGHT -> plIndex w' = 0).
Proof.
  intros Hs Hn Hc.
  destruct (select_cursor k cur w Hs) as (s' & w' & E & P & _).
  exists s', w'. split; [exact E|]. rewrite P.
  pose proof (u8_range (plIndex w - 1)) as R1.
  pose proof (u8_range (plIndex w + 1)) as R2.
  pose proof (u8_range (u16 (plCount w - 1))) as R3.
  split.
  { unfold next_cursor.
    destruct (first_press nav_order k) as [[|[|[|[|?]]]]|];
      try destruct (plIndex w =? 0);
      try destruct (plIndex w =? u16 (plCount w - 1)); lia. }
  split.
  { intros ->. cbn [next_cursor BTN_DOWN]. apply u8_u16. }
  split; [lia|].
  intros Hbig H255 ->. cbn [next_cursor BTN_RIGHT].
  rewrite (u16_small (plCount w - 1)) by lia.
  destruct (Z.eqb_spec (plIndex w) (plCount w - 1)); [lia|].
  rewrite H255. reflexivity.
Qed.

Lemma next_cursor_valid (n idx : Z) (b : option nat) :
  1 <= n <= 65535 -> 0 <= idx <= 255 -> idx <= n - 1 ->
  0 <= next_cursor n idx b <= 255 /\ next_cursor n idx b <= n - 1.
Proof.
  intros Hn Hi Hle.
  pose proof (u8_range (idx - 1)) as R1.
  pose proof (u8_range (idx + 1)) as R2.
  pose proof (u8_range (u16 (n - 1))) as R3.
  assert (D : u8 (u16 (n - 1)) <= n - 1).
  { rewrite u8_u16. apply Z.mod_le; lia. }
  assert (U : u16 (n - 1) = n - 1) by (apply u16_small; lia).
  unfold next_cursor.
  destruct b as [[|[|[|[|?]]]]|]; try lia.
  - rewrite U. destruct (Z.eqb_spec idx (n - 1)); [lia|].
    split; [lia|]. unfold u8. pose proof (Z.mod_le (idx + 1) 256). lia.
  - destruct (Z.eqb_spec idx 0); [lia|].
    split; [lia|]. rewrite u8_small by lia. lia.
Qed.

(** *** What a pass leaves alone *)

Lemma select_frame (k : keys) (cur : seq_state) (w : world smf) :
  lcd_s w = LSSelect ->
  let w' := after (lcdFSM cur k w) in
  plCount w' = plCount w /\ fname w' = fname w /\ plFile w' = plFile w /\
  sd_playlist w' = sd_playlist w /\
  plIndex w' = next_cursor (plCount w) (plIndex w) (first_press nav_order k) /\
  (lcd_s w' = LSSelect -> plIndex w' = plIndex w).
Proof.
  intros Hs. rewrite lcd_select by exact Hs. cbv zeta.
  unfold nav_order, BTN_SELECT, BTN_LEFT, BTN_UP, BTN_DOWN, BTN_RIGHT.
  cbn [first_press].
  destruct (is_press (k 4%nat)); [cbn [after next_cursor]; frame|].
  destruct (is_press (k 3%nat)); [cbn [after next_cursor]; frame|].
  destruct (is_press (k 0%nat)); [cbn [after next_cursor]; frame|].
  destruct (is_press (k 1%nat)); [cbn [after next_cursor]; frame|].
  destruct (is_press (k 2%nat)); cbn [after next_cursor]; frame.
Qed.

Lemma same_nav_refl (w : world smf) : same_nav w w.
Proof. frame. Qed.

Lemma same_nav_trans (a b c : world smf) :
  same_nav a b -> same_nav b c -> same_nav a c.
Proof. unfold same_nav. intuition congruence. Qed.

Lemma play_world_eof (w : world smf) :
  smf_isEOF (SMF w) = true ->
  play_world w = set_midi_s MSClose (log [Smf SmfIsEOF] w).
Proof.
  intro E. unfold play_world. rewrite play_step_run, E. reflexivity.
Qed.

Lemma play_world_more (w : world smf) :
  smf_isEOF (SMF w) = false ->
  exists t,
    play_world w
    = log (Smf SmfIsEOF :: Smf SmfGetNextEvent :: t)
          (set_SMF (snd (smf_getNextEvent (SMF w))) w).
Proof.
  intro E. unfold play_world. rewrite play_step_run, E. cbv zeta.
  destruct (fst (fst (smf_getNextEvent (SMF w)))); cbn [after].
  - rewrite log_log. cbn [app]. eexists. reflexivity.
  - eexists. reflexivity.
Qed.

Lemma play_world_nav (w : world smf) : same_nav w (play_world w).
Proof.
  destruct (smf_isEOF (SMF w)) eqn:E.
  - rewrite play_world_eof by exact E. frame.
  - destruct (play_world_more w E) as (t & ->). frame.
Qed.

Lemma check_keys_nav (k : keys) (w : world smf) :
  same_nav w (after (check_keys k w)).
Proof.
  rewrite check_keys_run. cbv zeta. cbn [after].
  destruct (is_press (k 3%nat)); [frame|].
  destruct (is_press (k 2%nat)); [frame|].
  destruct (is_press (k 0%nat)); [frame|].
  destruct (is_press (k 1%nat)); frame.
Qed.

Lemma midiFSM_nav (k : keys) (cur : seq_state) (w : world smf) :
  same_nav w (after (midiFSM cur k w)).
Proof.
  destruct (midi_s w) eqn:Hs.
  - rewrite midi_begin by exact Hs. cbn [after]. frame.
  - rewrite midi_load by exact Hs. cbv zeta.
    destruct (smf_load (cstr (fname w)) (SMF w)) as [err q]. cbn [fst snd].
    destruct (err =? E_OK); cbn [after]; frame.
  - rewrite midi_open by exact Hs. cbn [after]. frame.
  - rewrite midi_process by exact Hs.
    eapply same_nav_trans; [apply play_world_nav|].
    pose proof (check_keys_nav k (play_world w)) as N.
    rewrite check_keys_run in *. exact N.
  - rewrite midi_close by exact Hs. cbn [after]. frame.
Qed.

Lemma after_ret {A} (o : outcome smf A) (a : A) (w : world smf) :
  o = Ret a w -> after o = w.
Proof. intros ->. reflexivity. Qed.

(** *** The invariant of the reachable worlds *)

Lemma entry_length (data : list ascii) (n i : Z) :
  FNAME_SIZE * n <= Z.of_nat (List.length data) -> 0 <= i <= n - 1 ->
  List.length (entry data i) = 13%nat.
Proof.
  unfold entry, FNAME_SIZE. intros Hlen Hi.
  rewrite length_firstn, length_skipn. lia.
Qed.

Lemma showfile_reads (w : world smf) (data : list ascii) :
  inv w data -> lcd_s w = LSShowFile ->
  let r := file_read FNAME_SIZE
             (file_seekSet (FNAME_SIZE * plIndex w) (plFile w)) in
  store (fst r) (fname w) = entry data (plIndex w) ++ [NUL] /\
  f_open (snd r) = true /\ f_data (snd r) = data.
Proof.
  intros [Hcard [Hn Hlen] [Hi Hle] Hfile Hopen (body & Hb & Hbl) _] Hs.
  assert (Hop : f_open (plFile w) = true) by (apply Hopen; rewrite Hs; discriminate).
  specialize (Hfile Hop).
  assert (Hseek : (Z.to_nat (FNAME_SIZE * plIndex w)
                   <=? List.length (f_data (plFile w)))%nat = true).
  { apply Nat.leb_le. rewrite Hfile. unfold FNAME_SIZE in *. lia. }
  cbv zeta. unfold file_seekSet. rewrite Hop, Hseek. cbn [andb].
  unfold file_read. cbn [f_open f_data f_pos fst snd]. rewrite Hfile.
  split; [|split; reflexivity].
  change (firstn (Z.to_nat FNAME_SIZE)
            (skipn (Z.to_nat (FNAME_SIZE * plIndex w)) data))
    with (entry data (plIndex w)).
  unfold store.
  rewrite (entry_length data (plCount w) (plIndex w) Hlen) by lia.
  rewrite Hb, skipn_app, Hbl, skipn_all2 by lia.
  now rewrite Nat.sub_diag.
Qed.

Lemma inv_same_nav (w w' : world smf) (data : list ascii) :
  inv w data -> same_nav w w' -> inv w' data.
Proof.
  intros [I1 I2 I3 I4 I5 I6 I7] (E1 & E2 & E3 & E4 & E5 & E6).
  constructor; rewrite ?E1, ?E2, ?E3, ?E4, ?E5, ?E6; assumption.
Qed.

Lemma lcdFSM_inv (k : keys) (cur s' : seq_state) (w w' : world smf)
      (data : list ascii) :
  inv w data -> lcdFSM cur k w = Ret s' w' -> inv w' data.
Proof.
  intros I F.
  destruct (lcd_s w) eqn:Hs.
  - (* LSBegin *)
    rewrite lcd_begin in F by exact Hs. cbv zeta in F.
    destruct (f_open (plFile w)) eqn:Hop.
    + apply after_ret in F. cbn [after] in F. subst w'.
      destruct I as [I1 I2 I3 I4 I5 I6 I7].
      constructor.
      * exact I1.
      * exact I2.
      * exact I3.
      * intros _. apply I4. exact Hop.
      * intros _. exact Hop.
      * exact I6.
      * discriminate.
    + destruct I as [I1 I2 I3 I4 I5 I6 I7].
      rewrite I1 in F. apply after_ret in F. cbn [after] in F. subst w'.
      constructor.
      * exact I1.
      * exact I2.
      * exact I3.
      * intros _. reflexivity.
      * intros _. reflexivity.
      * exact I6.
      * discriminate.
  - (* LSSelect *)
    pose proof (select_frame k cur w Hs) as Fr. cbv zeta in Fr.
    rewrite (after_ret _ _ _ F) in Fr.
    destruct Fr as (E1 & E2 & E3 & E4 & E5 & E6).
    destruct I as [I1 I2 I3 I4 I5 I6 I7].
    assert (Hop : f_open (plFile w) = true) by (apply I5; rewrite Hs; discriminate).
    destruct I2 as [Hn Hlen].
    pose proof (next_cursor_valid (plCount w) (plIndex w)
                  (first_press nav_order k) Hn (proj1 I3) (proj2 I3)) as V.
    constructor; rewrite ?E1, ?E2, ?E3, ?E4; try assumption.
    + split; assumption.
    + rewrite E5. exact V.
    + intros _. exact Hop.
    + intro Hs'. rewrite (E6 Hs'). apply I7. exact Hs.
  - (* LSShowFile *)
    pose proof (showfile_reads w data I Hs) as R. cbv zeta in R.
    destruct R as (R1 & R2 & R3).
    rewrite lcd_showfile in F by exact Hs. cbv zeta in F.
    apply after_ret in F. cbn [after] in F. subst w'.
    destruct I as [I1 [Hn Hlen] I3 I4 I5 I6 I7].
    constructor.
    + exact I1.
    + split; assumption.
    + exact I3.
    + intros _. exact R3.
    + intros _. exact R2.
    + exists (entry data (plIndex w)). split; [exact R1|].
      apply (entry_length data (plCount w)); [exact Hlen|lia].
    + intros _. exact R1.
Qed.

Lemma loop_inv (k : keys) (w w' : world smf) (data : list ascii) :
  inv w data -> loop k w = Ret tt w' -> inv w' data.
Proof.
  intros I E.
  destruct (loop_s w) eqn:L.
  - rewrite loop_lcd in E by exact L.
    destruct (lcdFSM LCDSeq k w) as [s1 w1|w1] eqn:F; [|discriminate].
    apply after_ret in E. cbn [after] in E. subst w'.
    apply (inv_same_nav w1); [|frame].
    eapply lcdFSM_inv; eassumption.
  - rewrite loop_midi in E by exact L.
    pose proof (midiFSM_nav k MIDISeq w) as N.
    destruct (midiFSM MIDISeq k w) as [s1 w1|w1] eqn:F; [|discriminate].
    apply after_ret in E. cbn [after] in E. subst w'.
    apply (inv_same_nav w); [exact I|].
    eapply same_nav_trans; [exact N|]. cbn [after]. frame.
Qed.

Lemma boot_inv (n : Z) (data : list ascii) (q : smf) :
  card_holds n data -> inv (boot n (Some data) q) data.
Proof.
  intro C. constructor; cbn.
  - reflexivity.
  - exact C.
  - destruct C. lia.
  - discriminate.
  - intro F. now elim F.
  - exists (repeat NUL 13). split; reflexivity.
  - discriminate.
Qed.

Lemma reachable_inv (w : world smf) :
  reachable w -> exists data, inv w data.
Proof.
  induction 1 as [n data q C|k w w' R (data & I) E].
  - exists data. now apply boot_inv.
  - exists data. eapply loop_inv; eassumption.
Qed.

(** *** Confirming a selection *)

Lemma is_press_key (x : keyResult) : is_press x = true <-> x = KEY_PRESS.
Proof. destruct x; cbn; split; congruence. Qed.

(** The file-selection machine hands over to playback only from [LSSelect]
    and only on a Select press. *)
Lemma lcdFSM_switch_only (k : keys) (w : world smf) :
  result (lcdFSM LCDSeq k w) = Some MIDISeq ->
  lcd_s w = LSSelect /\ k BTN_SELECT = KEY_PRESS.
Proof.
  destruct (lcd_s w) eqn:Hs.
  - rewrite lcd_begin by exact Hs. cbv zeta.
    destruct (f_open (plFile w)); [discriminate|].
    destruct (sd_playlist w); discriminate.
  - rewrite lcd_select by exact Hs. cbv zeta. unfold BTN_SELECT.
    destruct (is_press (k 4%nat)) eqn:K4.
    { intros _. split; [reflexivity|]. now apply is_press_key. }
    destruct (is_press (k 3%nat)); [discriminate|].
    destruct (is_press (k 0%nat)); [discriminate|].
    destruct (is_press (k 1%nat)); [discriminate|].
    destruct (is_press (k 2%nat)); discriminate.
  - rewrite lcd_showfile by exact Hs. discriminate.
Qed.

(** C2: in a reachable world, with the machine in [LSSelect], a Select press
    makes [lcdFSM] return [MIDISeq] with [fname] holding exactly the play
    list record at the cursor (and its terminating NUL), the cursor being a
    valid index; the machine's state goes back to [LSBegin] and nothing but
    the press is recorded.  The mode switches once per press: no pass of
    [lcdFSM] returns [MIDISeq] otherwise. *)
Theorem select_confirms (k : keys) (w : world smf) (data : list ascii) :
  reachable w ->
  sd_playlist w = Some data ->
  lcd_s w = LSSelect ->
  k BTN_SELECT = KEY_PRESS ->
  exists w',
    lcdFSM LCDSeq k w = Ret MIDISeq w' /\
    0 <= plIndex w <= plCount w - 1 /\
    fname w' = entry data (plIndex w) ++ [NUL] /\
    lcd_s w' = LSBegin /\
    plIndex w' = plIndex w /\
    trace w' = trace w ++ [BtnRead BTN_SELECT] /\
    (forall (k0 : keys) (w0 : world smf),
        result (lcdFSM LCDSeq k0 w0) = Some MIDISeq ->
                   lcd_s w0 = LSSelect /\ k0 BTN_SELECT = KEY_PRESS).
Proof.
  intros R Hcard Hs Hk.
  destruct (reachable_inv w R) as (data' & [I1 I2 I3 I4 I5 I6 I7]).
  assert (data' = data) by congruence. subst data'.
  rewrite lcd_select by exact Hs. cbv zeta.
  unfold BTN_SELECT in Hk. rewrite Hk. cbn [is_press map].
  eexists. split; [reflexivity|].
  split; [lia|].
  split; [exact (I7 Hs)|].
  split; [reflexivity|].
  split; [reflexivity|].
  split; [reflexivity|].
  intros k0 w0. apply lcdFSM_switch_only.
Qed.

(** *** A file that does not load *)

Lemma smf_calls_app (a b : list event) :
  smf_calls (a ++ b) = smf_calls a ++ smf_calls b.
Proof.
  induction a as [|e a IH]; [reflexivity|].
  destruct e; cbn; rewrite IH; reflexivity.
Qed.

Lemma smf_calls_clr (fuel : nat) (c : Z) : smf_calls (clr_trace fuel c) = [].
Proof.
  revert c; induction fuel as [|f IH]; intro c; cbn [clr_trace]; [reflexivity|].
  destruct (c <? LCD_COLS); [cbn; apply IH|reflexivity].
Qed.

Lemma smf_calls_message (r c : Z) (msg : string) (clrEol : bool) :
  smf_calls (message_trace r c msg clrEol) = [].
Proof.
  unfold message_trace. rewrite smf_calls_app. cbn [smf_calls app].
  destruct clrEol; [apply smf_calls_clr|reflexivity].
Qed.

(** C3: when [SMF.load] answers a code other than [E_OK] (and the message
    fits the 16-character buffer), the pass in [MSLoad] shows "SMF error"
    with the code on row 1, waits, and goes to [MSClose], not [MSProcess];
    the next pass closes the sequencer, silences the channels and returns
    [LCDSeq].  Neither pass hangs, and the only calls made on the sequencer
    are the load and the close: no event is ever advanced. *)
Theorem load_failure_closes (k1 k2 : keys) (w : world smf) (err : Z) (q : smf) :
  loop_s w = MIDISeq ->
  midi_s w = MSLoad ->
  smf_load (cstr (fname w)) (SMF w) = (err, q) ->
  err <> E_OK ->
  strlen (String.append "SMF error " (fmt_d true 3 err)) < 16 ->
  exists w1 w2,
    loop k1 w = Ret tt w1 /\
    midi_s w1 = MSClose /\ loop_s w1 = MIDISeq /\
    trace w1 = trace w
                 ++ [Smf (SmfLoad (cstr (fname w)))]
                 ++ message_trace 1 0
                      (String.append "SMF error " (fmt_d true 3 err)) true
                 ++ [Delay 2000] /\
    loop k2 w1 = Ret tt w2 /\
    midi_s w2 = MSBegin /\ loop_s w2 = LCDSeq /\
    trace w2 = trace w1 ++ Smf SmfClose :: silence_trace /\
    SMF w2 = smf_close q /\
    smf_calls (skipn (List.length (trace w)) (trace w2))
    = [SmfLoad (cstr (fname w)); SmfClose].
Proof.
  intros L Hs Hload Herr _.
  assert (Hne : (err =? E_OK) = false) by now apply Z.eqb_neq.
  rewrite (loop_midi k1 w L), (midi_load k1 MIDISeq w Hs). cbv zeta.
  rewrite Hload. cbn [fst snd]. rewrite Hne.
  eexists. eexists.
  split; [reflexivity|].
  split; [reflexivity|].
  split; [reflexivity|].
  split; [reflexivity|].
  rewrite loop_midi by reflexivity.
  rewrite midi_close by reflexivity.
  split; [reflexivity|].
  split; [reflexivity|].
  split; [reflexivity|].
  split; [reflexivity|].
  split; [reflexivity|].
  cbv beta iota delta [set_loop_s set_midi_s set_SMF log trace].
  rewrite <- app_assoc, skipn_app, skipn_all, Nat.sub_diag.
  cbn [skipn app smf_calls].
  rewrite !smf_calls_app, smf_calls_message. reflexivity.
Qed.

(** *** Transport keys *)


Lemma midi_process_run (k : keys) (cur : seq_state) (w : world smf) :
  midi_s w = MSProcess ->
  midiFSM cur k w = Ret cur (after (check_keys k (play_world w))).
Proof.
  intro Hs. rewrite midi_process by exact Hs.
  rewrite check_keys_run. reflexivity.
Qed.

(** C4: in [MSProcess], whatever the sequencer is doing, a pass in which
    Stop is the key acted on ends in [MSClose] with the mode still
    [MIDISeq]; the pass after it closes the sequencer, sends all sound off
    (controller 120, value 0) on channels 0 to 15 in turn and hands the mode
    [LCDSeq] to the dispatcher.  The file-selection machine has not run in
    between: its part of the world is untouched. *)
Theorem stop_silences (k1 k2 : keys) (w : world smf) :
  loop_s w = MIDISeq ->
  midi_s w = MSProcess ->
  first_press play_order k1 = Some BTN_RIGHT ->
  exists w1 w2,
    loop k1 w = Ret tt w1 /\
    midi_s w1 = MSClose /\ loop_s w1 = MIDISeq /\
    loop k2 w1 = Ret tt w2 /\
    loop_s w2 = LCDSeq /\ midi_s w2 = MSBegin /\
    trace w2 = trace w1 ++ Smf SmfClose :: silence_trace /\
    serial_out (Smf SmfClose :: silence_trace)
    = flat_map (fun ch => [Z.lor 0xb0 ch; 120; 0]) (map Z.of_nat (seq 0 16)) /\
    same_nav w w2.
Proof.
  intros L Hs Hk.
  apply first_press_play in Hk. cbv beta iota delta [BTN_RIGHT] in Hk.
  destruct Hk as (K3 & K2).
  rewrite (loop_midi k1 w L), (midi_process_run k1 MIDISeq w Hs).
  rewrite check_keys_run. cbv zeta. rewrite K3, K2. cbn [after].
  assert (Hm : midi_s (set_loop_s MIDISeq
                         (set_midi_s MSClose
                            (log (map BtnRead [3; 2]%nat) (play_world w))))
               = MSClose) by reflexivity.
  eexists. eexists.
  split; [reflexivity|].
  split; [reflexivity|].
  split; [reflexivity|].
  rewrite loop_midi by reflexivity.
  rewrite (midi_close k2 MIDISeq _ Hm).
  split; [reflexivity|].
  split; [reflexivity|].
  split; [reflexivity|].
  split; [reflexivity|].
  split; [reflexivity|].
  eapply same_nav_trans; [apply play_world_nav|]. frame.
Qed.

(** C6: in [MSProcess], a pass in which Pause is the key acted on calls
    [pause(true)] on the sequencer and then sends all sound off on the
    sixteen channels; a later pass in which Resume is the key acted on calls
    [pause(false)] and sends nothing.  In both, apart from the sequencer and
    the trace, the world is the one the first statement of the case leaves. *)
Theorem pause_then_resume (k1 k2 : keys) (cur : seq_state) (w : world smf) :
  midi_s w = MSProcess ->
  first_press play_order k1 = Some BTN_UP ->
  first_press play_order k2 = Some BTN_DOWN ->
  midiFSM cur k1 w
  = Ret cur
      (set_SMF (smf_pause true (SMF (play_world w)))
         (log (map BtnRead [3; 2; 0]%nat
                 ++ [Smf (SmfPause true)] ++ silence_trace)
              (play_world w))) /\
  serial_out (map BtnRead [3; 2; 0]%nat
                ++ [Smf (SmfPause true)] ++ silence_trace) = all_sound_off /\
  forall w1 : world smf,
    midi_s w1 = MSProcess ->
    midiFSM cur k2 w1
    = Ret cur
        (set_SMF (smf_pause false (SMF (play_world w1)))
           (log (map BtnRead [3; 2; 0; 1]%nat ++ [Smf (SmfPause false)])
              (play_world w1))) /\
    serial_out (map BtnRead [3; 2; 0; 1]%nat ++ [Smf (SmfPause false)]) = [].
Proof.
  intros Hs H1 H2.
  apply first_press_play in H1. cbv beta iota delta [BTN_UP] in H1.
  destruct H1 as (A3 & A2 & A0).
  apply first_press_play in H2. cbv beta iota delta [BTN_DOWN] in H2.
  destruct H2 as (B3 & B2 & B0 & B1).
  split.
  { rewrite (midi_process_run k1 cur w Hs), check_keys_run. cbv zeta.
    rewrite A3, A2, A0. reflexivity. }
  split; [reflexivity|].
  intros w1 Hs1. split; [|reflexivity].
  rewrite (midi_process_run k2 cur w1 Hs1), check_keys_run. cbv zeta.
  rewrite B3, B2, B0, B1. reflexivity.
Qed.

(** C7: in [MSProcess], a pass in which Rewind is the key acted on returns
    the mode it was given; apart from what the first statement of the case
    does, it only sends all sound off and calls [restart()] on the sequencer.
    The press adds no transition: the state after the pass is the state
    after the same pass with no key pressed, which is [MSProcess] unless the
    sequencer reported the end of the data. *)
Theorem rewind_stays (k : keys) (cur : seq_state) (w : world smf) :
  midi_s w = MSProcess ->
  first_press play_order k = Some BTN_LEFT ->
  midiFSM cur k w
  = Ret cur
      (set_SMF (smf_restart (SMF (play_world w)))
         (log (map BtnRead [3]%nat ++ silence_trace ++ [Smf SmfRestart])
              (play_world w))) /\
  serial_out (map BtnRead [3]%nat ++ silence_trace ++ [Smf SmfRestart])
  = all_sound_off /\
  midi_s (after (midiFSM cur k w)) = midi_s (after (midiFSM cur no_keys w)) /\
  (smf_isEOF (SMF w) = false -> midi_s (after (midiFSM cur k w)) = MSProcess).
Proof.
  intros Hs Hk.
  apply first_press_play in Hk. cbv beta iota delta [BTN_LEFT] in Hk.
  assert (E : midiFSM cur k w
              = Ret cur
                  (set_SMF (smf_restart (SMF (play_world w)))
                     (log (map BtnRead [3]%nat ++ silence_trace ++ [Smf SmfRestart])
                        (play_world w)))).
  { rewrite (midi_process_run k cur w Hs), check_keys_run. cbv zeta.
    rewrite Hk. reflexivity. }
  split; [exact E|].
  split; [reflexivity|].
  rewrite E. cbn [after].
  rewrite (midi_process_run no_keys cur w Hs), check_keys_run. cbv zeta.
  cbn [no_keys is_press after].
  split; [reflexivity|].
  intro Heof. destruct (play_world_more w Heof) as (t & ->).
  cbv beta iota delta [set_SMF log midi_s]. exact Hs.
Qed.

(** *** One key per pass *)

Lemma lcdFSM_one_key (k : keys) (cur : seq_state) (w : world smf) :
  lcdFSM cur k w = lcdFSM cur (just (first_press nav_order k)) w.
Proof.
  destruct (lcd_s w) eqn:Hs.
  - now rewrite !lcd_begin by exact Hs.
  - rewrite !lcd_select by exact Hs. cbv zeta.
    unfold nav_order, BTN_SELECT, BTN_LEFT, BTN_UP, BTN_DOWN, BTN_RIGHT.
    cbn [first_press].
    destruct (is_press (k 4%nat)); [reflexivity|].
    destruct (is_press (k 3%nat)); [reflexivity|].
    destruct (is_press (k 0%nat)); [reflexivity|].
    destruct (is_press (k 1%nat)); [reflexivity|].
    destruct (is_press (k 2%nat)); reflexivity.
  - now rewrite !lcd_showfile by exact Hs.
Qed.

Lemma check_keys_one_key (k : keys) (w : world smf) :
  check_keys k w = check_keys (just (first_press play_order k)) w.
Proof.
  rewrite !check_keys_run. cbv zeta.
  unfold play_order, BTN_LEFT, BTN_UP, BTN_DOWN, BTN_RIGHT.
  cbn [first_press].
  destruct (is_press (k 3%nat)); [reflexivity|].
  destruct (is_press (k 2%nat)); [reflexivity|].
  destruct (is_press (k 0%nat)); [reflexivity|].
  destruct (is_press (k 1%nat)); reflexivity.
Qed.

Lemma midiFSM_one_key (k : keys) (cur : seq_state) (w : world smf) :
  midiFSM cur k w = midiFSM cur (just (first_press play_order k)) w.
Proof.
  destruct (midi_s w) eqn:Hs.
  - now rewrite !midi_begin by exact Hs.
  - now rewrite !midi_load by exact Hs.
  - now rewrite !midi_open by exact Hs.
  - rewrite !midi_process by exact Hs. now rewrite check_keys_one_key.
  - now rewrite !midi_close by exact Hs.
Qed.

(** C9: a pass of either machine equals the same pass with only the first
    pressed button of its priority order pressed (Select, Left, Up, Down,
    Right when selecting; Rewind, Stop, Pause, Resume, that is Left, Right,
    Up, Down, when playing), or with none pressed when none is.  The buttons
    are read in that order, each at most once, up to and including the first
    that reports a press; the others are not read in that pass. *)
Theorem one_action_per_pass (k : keys) (cur : seq_state) (w : world smf) :
  lcdFSM cur k w = lcdFSM cur (just (first_press nav_order k)) w /\
  midiFSM cur k w = midiFSM cur (just (first_press play_order k)) w /\
  (lcd_s w = LSSelect ->
   trace (after (lcdFSM cur k w))
   = trace w ++ map BtnRead (scanned nav_order k)) /\
  (midi_s w = MSProcess ->
   exists t,
     trace (after (midiFSM cur k w))
     = trace (play_world w) ++ map BtnRead (scanned play_order k) ++ t /\
     btn_reads t = []) /\
  nav_order = [4; 3; 0; 1; 2]%nat /\ play_order = [3; 2; 0; 1]%nat.
Proof.
  split; [apply lcdFSM_one_key|].
  split; [apply midiFSM_one_key|].
  split.
  { intro Hs. rewrite lcd_select by exact Hs. cbv zeta.
    unfold nav_order, BTN_SELECT, BTN_LEFT, BTN_UP, BTN_DOWN, BTN_RIGHT.
    cbn [scanned].
    destruct (is_press (k 4%nat)); [reflexivity|].
    destruct (is_press (k 3%nat)); [reflexivity|].
    destruct (is_press (k 0%nat)); [reflexivity|].
    destruct (is_press (k 1%nat)); [reflexivity|].
    destruct (is_press (k 2%nat)); reflexivity. }
  split; [|split; reflexivity].
  intro Hs. rewrite (midi_process_run k cur w Hs), check_keys_run. cbv zeta.
  cbn [after].
  unfold play_order, BTN_LEFT, BTN_UP, BTN_DOWN, BTN_RIGHT.
  cbn [scanned].
  destruct (is_press (k 3%nat)).
  { exists (silence_trace ++ [Smf SmfRestart]). split; reflexivity. }
  destruct (is_press (k 2%nat)).
  { exists []. split; [|reflexivity].
    cbv beta iota delta [set_midi_s log trace]. now rewrite app_nil_r. }
  destruct (is_press (k 0%nat)).
  { exists ([Smf (SmfPause true)] ++ silence_trace). split; reflexivity. }
  destruct (is_press (k 1%nat)).
  { exists [Smf (SmfPause false)]. split; reflexivity. }
  exists []. split; [|reflexivity].
  cbv beta iota delta [log trace]. now rewrite app_nil_r.
Qed.

(** *** The cursor on short and on long play lists *)

(** With at most 256 names the cursor moves as the comments of [LSSelect]
    say: back one, forward one, first, last, never past either end. *)
Lemma next_cursor_clamped (n c : Z) :
  1 <= n <= 256 -> 0 <= c <= n - 1 ->
  next_cursor n c (Some BTN_LEFT) = Z.max (c - 1) 0 /\
  next_cursor n c (Some BTN_RIGHT) = Z.min (c + 1) (n - 1) /\
  next_cursor n c (Some BTN_UP) = 0 /\
  next_cursor n c (Some BTN_DOWN) = n - 1.
Proof.
  intros Hn Hc. unfold next_cursor, BTN_LEFT, BTN_RIGHT, BTN_UP, BTN_DOWN.
  rewrite (u16_small (n - 1)) by lia.
  rewrite (u8_small (n - 1)) by lia.
  repeat split.
  - destruct (Z.eqb_spec c 0); [lia|]. rewrite u8_small by lia. lia.
  - destruct (Z.eqb_spec c (n - 1)); [lia|]. rewrite u8_small by lia. lia.
Qed.

End Facts.

(** C1, at a play list of 300 names (and one of 512): after Begin and
    ShowFile, a Down press leaves the cursor at 43, not at the last index
    299; with 512 names Down leaves it at 255 and a Right press then takes it
    to 0, not to 256. *)
Theorem cursor_wraps_on_long_lists :
  option_map (fun w => (plCount w, plIndex w))
    (final (run [no_keys; no_keys; only_key BTN_DOWN] boot_300))
  = Some (300, 43) /\
  option_map (fun w => (plCount w, plIndex w))
    (final (run [no_keys; no_keys; only_key BTN_DOWN; no_keys; only_key BTN_RIGHT]
              (boot 512 (Some (playlist_of (repeat "X.MID"%string 512))) tune)))
  = Some (512, 0).
Proof. split; vm_compute; reflexivity. Qed.

(** * The theorems at concrete inputs *)

Lemma midiCallback_forwards_witness :
  event_ok note_on /\
  exists bytes,
    midiCallback note_on no_keys boot_abc
    = Ret tt (log (map SerialWrite bytes) boot_abc) /\
    bytes = [0x92; 60; 100].
Proof.
  assert (Hok : event_ok note_on).
  { unfold event_ok, note_on; cbn. repeat split; try lia.
    repeat constructor; lia. }
  split; [exact Hok|].
  destruct (midiCallback_forwards note_on no_keys boot_abc Hok)
    as (bytes & E & _ & _ & B).
  - intros _. cbn. lia.
  - exists bytes. split; [exact E|]. rewrite B. reflexivity.
Defined.

Lemma showfile_markers_witness :
  lcd_s showing_abc = LSShowFile /\
  exists w' pre,
    lcdFSM LCDSeq no_keys showing_abc = Ret LCDSeq w' /\
    trace w' = trace showing_abc ++ pre
                 ++ [LcdSetCursor 14 1; LcdPrintChar " "; LcdPrintChar ">"].
Proof.
  assert (Hs : lcd_s showing_abc = LSShowFile) by (vm_compute; reflexivity).
  assert (Hn : plCount showing_abc = 3) by (vm_compute; reflexivity).
  assert (Hc : plIndex showing_abc = 0) by (vm_compute; reflexivity).
  split; [exact Hs|].
  destruct (showfile_markers no_keys LCDSeq showing_abc Hs)
    as (w' & pre & l & r & E & T & L1 & _ & R1 & R2 & _).
  - rewrite Hn. lia.
  - rewrite Hc. lia.
  - exists w', pre. split; [exact E|].
    rewrite T.
    assert (Hl : l = " "%char) by (apply L1; exact Hc).
    assert (Hr : r = ">"%char).
    { apply R2. intro F. apply R1 in F. rewrite Hn, Hc in F. discriminate. }
    rewrite Hl, Hr. reflexivity.
Defined.

Lemma cursor_mod_256_witness :
  lcd_s selecting_300 = LSSelect /\
  plCount selecting_300 = 300 /\
  exists s' w',
    lcdFSM LCDSeq (only_key BTN_DOWN) selecting_300 = Ret s' w' /\
    plIndex w' = 43.
Proof.
  assert (Hs : lcd_s selecting_300 = LSSelect) by (vm_compute; reflexivity).
  assert (Hn : plCount selecting_300 = 300) by (vm_compute; reflexivity).
  assert (Hc : plIndex selecting_300 = 0) by (vm_compute; reflexivity).
  split; [exact Hs|]. split; [exact Hn|].
  destruct (cursor_mod_256 (only_key BTN_DOWN) LCDSeq selecting_300 Hs)
    as (s' & w' & E & _ & D & _).
  - rewrite Hn. lia.
  - rewrite Hc. lia.
  - exists s', w'. split; [exact E|].
    rewrite D by reflexivity. rewrite Hn. reflexivity.
Defined.

Lemma selecting_abc_reachable : reachable selecting_abc.
Proof.
  apply (reach_loop no_keys showing_abc); [|vm_compute; reflexivity].
  apply (reach_loop no_keys boot_abc); [|vm_compute; reflexivity].
  apply reach_boot. split; [lia|reflexivity].
Defined.

Lemma select_confirms_witness :
  reachable selecting_abc /\
  sd_playlist selecting_abc = Some (playlist_of abc) /\
  lcd_s selecting_abc = LSSelect /\
  exists w',
    lcdFSM LCDSeq (only_key BTN_SELECT) selecting_abc = Ret MIDISeq w' /\
    cstr (fname w') = "A.MID"%string /\
    lcd_s w' = LSBegin.
Proof.
  assert (Hcard : sd_playlist selecting_abc = Some (playlist_of abc))
    by (vm_compute; reflexivity).
  assert (Hs : lcd_s selecting_abc = LSSelect) by (vm_compute; reflexivity).
  assert (Hc : plIndex selecting_abc = 0) by (vm_compute; reflexivity).
  split; [exact selecting_abc_reachable|].
  split; [exact Hcard|]. split; [exact Hs|].
  destruct (select_confirms (only_key BTN_SELECT) selecting_abc (playlist_of abc)
              selecting_abc_reachable Hcard Hs eq_refl)
    as (w' & E & _ & F & B & _).
  exists w'. split; [exact E|]. split; [|exact B].
  rewrite F, Hc. vm_compute. reflexivity.
Defined.

Lemma load_failure_closes_witness :
  midi_s loading_broken = MSLoad /\
  fst (smf_load (cstr (fname loading_broken)) (SMF loading_broken)) = 2 /\
  exists w1 w2,
    loop no_keys loading_broken = Ret tt w1 /\ midi_s w1 = MSClose /\
    loop no_keys w1 = Ret tt w2 /\ loop_s w2 = LCDSeq /\
    smf_calls (skipn (List.length (trace loading_broken)) (trace w2))
    = [SmfLoad "A.MID"; SmfClose].
Proof.
  assert (Hl : loop_s loading_broken = MIDISeq) by (vm_compute; reflexivity).
  assert (Hs : midi_s loading_broken = MSLoad) by (vm_compute; reflexivity).
  assert (Hn : cstr (fname loading_broken) = "A.MID"%string)
    by (vm_compute; reflexivity).
  assert (Hload : smf_load (cstr (fname loading_broken)) (SMF loading_broken)
                  = (2, broken_tune)) by (vm_compute; reflexivity).
  split; [exact Hs|]. split; [rewrite Hload; reflexivity|].
  destruct (load_failure_closes no_keys no_keys loading_broken 2 broken_tune
              Hl Hs Hload)
    as (w1 & w2 & E1 & M1 & _ & _ & E2 & _ & L2 & _ & _ & C).
  - discriminate.
  - vm_compute. reflexivity.
  - exists w1, w2. rewrite Hn in C. repeat split; assumption.
Defined.

Lemma stop_silences_witness :
  midi_s playing_abc = MSProcess /\
  exists w1 w2,
    loop (only_key BTN_RIGHT) playing_abc = Ret tt w1 /\ midi_s w1 = MSClose /\
    loop no_keys w1 = Ret tt w2 /\ loop_s w2 = LCDSeq /\
    trace w2 = trace w1 ++ Smf SmfClose :: silence_trace.
Proof.
  assert (Hl : loop_s playing_abc = MIDISeq) by (vm_compute; reflexivity).
  assert (Hs : midi_s playing_abc = MSProcess) by (vm_compute; reflexivity).
  split; [exact Hs|].
  destruct (stop_silences (only_key BTN_RIGHT) no_keys playing_abc Hl Hs eq_refl)
    as (w1 & w2 & E1 & M1 & _ & E2 & L2 & _ & T & _).
  exists w1, w2. repeat split; assumption.
Defined.

Lemma pause_then_resume_witness :
  midi_s playing_abc = MSProcess /\
  rs_paused (SMF (after (midiFSM MIDISeq (only_key BTN_UP) playing_abc))) = true /\
  rs_paused (SMF (after (midiFSM MIDISeq (only_key BTN_DOWN) playing_abc))) = false.
Proof.
  assert (Hs : midi_s playing_abc = MSProcess) by (vm_compute; reflexivity).
  split; [exact Hs|].
  destruct (pause_then_resume (only_key BTN_UP) (only_key BTN_DOWN) MIDISeq
              playing_abc Hs eq_refl eq_refl) as (E1 & _ & E2).
  destruct (E2 playing_abc Hs) as (E3 & _).
  rewrite E1, E3. split; reflexivity.
Defined.

Lemma rewind_stays_witness :
  midi_s playing_abc = MSProcess /\
  smf_isEOF (SMF playing_abc) = false /\
  midi_s (after (midiFSM MIDISeq (only_key BTN_LEFT) playing_abc)) = MSProcess /\
  rs_pos (SMF (after (midiFSM MIDISeq (only_key BTN_LEFT) playing_abc))) = 0%nat.
Proof.
  assert (Hs : midi_s playing_abc = MSProcess) by (vm_compute; reflexivity).
  assert (He : smf_isEOF (SMF playing_abc) = false) by (vm_compute; reflexivity).
  split; [exact Hs|]. split; [exact He|].
  destruct (rewind_stays (only_key BTN_LEFT) MIDISeq playing_abc Hs eq_refl)
    as (E & _ & _ & P).
  split; [exact (P He)|].
  rewrite E. reflexivity.
Defined.

Lemma one_action_per_pass_witness :
  first_press nav_order left_and_down = Some BTN_LEFT /\
  lcdFSM LCDSeq left_and_down selecting_abc
  = lcdFSM LCDSeq (only_key BTN_LEFT) selecting_abc.
Proof.
  split; [reflexivity|].
  exact (proj1 (one_action_per_pass left_and_down LCDSeq selecting_abc)).
Defined.

(** The walk through three names: Down, Left, Left takes the cursor along
    0, 2, 1, 0 and leaves the first name on the display. *)
Example down_left_left :
  option_map (fun w => (plIndex w, cstr (fname w)))
    (final (run [no_keys; no_keys; only_key BTN_DOWN; no_keys;
                 only_key BTN_LEFT; no_keys; only_key BTN_LEFT; no_keys]
              boot_abc))
  = Some (0, "A.MID"%string).
Proof. vm_compute. reflexivity. Qed.

(** At the last name a Right press leaves the cursor where it is. *)
Example right_at_the_end :
  option_map plIndex
    (final (run [no_keys; no_keys; only_key BTN_DOWN; no_keys; only_key BTN_RIGHT]
              boot_abc))
  = Some 2.
Proof. vm_compute. reflexivity. Qed.

(** * More of the sketch *)

Section MoreFacts.

Context {smf : Type} `{Sequencer smf}.

(** *** Reading traces piece by piece *)

Lemma serial_out_app (a b : list event) :
  serial_out (a ++ b) = serial_out a ++ serial_out b.
Proof.
  induction a as [|e a IH]; [reflexivity|].
  destruct e; cbn; rewrite IH; reflexivity.
Qed.

Lemma btn_reads_app (a b : list event) :
  btn_reads (a ++ b) = btn_reads a ++ btn_reads b.
Proof.
  induction a as [|e a IH]; [reflexivity|].
  destruct e; cbn; rewrite IH; reflexivity.
Qed.

Lemma quiet_clr (fuel : nat) (c : Z) :
  serial_out (clr_trace fuel c) = [] /\ btn_reads (clr_trace fuel c) = [].
Proof.
  revert c; induction fuel as [|f IH]; intro c; cbn [clr_trace];
    [split; reflexivity|].
  destruct (c <? LCD_COLS); [cbn; apply IH|split; reflexivity].
Qed.

Lemma quiet_message (r c : Z) (msg : string) (clrEol : bool) :
  serial_out (message_trace r c msg clrEol) = [] /\
  btn_reads (message_trace r c msg clrEol) = [] /\
  smf_calls (message_trace r c msg clrEol) = [].
Proof.
  split; [|split; [|apply smf_calls_message]];
    unfold message_trace;
    rewrite ?serial_out_app, ?btn_reads_app; cbn [serial_out btn_reads app];
    destruct clrEol; try reflexivity; apply quiet_clr.
Qed.


(** *** Messages on the display *)

Lemma clr_trace_blanks (fuel : nat) (c : Z) :
  0 <= c -> (Z.to_nat (LCD_COLS - c) < fuel)%nat ->
  clr_trace fuel c = repeat (LcdWrite " ") (Z.to_nat (LCD_COLS - c)).
Proof.
  unfold LCD_COLS. revert c; induction fuel as [|f IH]; intros c Hc Hf; [lia|].
  cbn [clr_trace]. unfold LCD_COLS.
  destruct (Z.ltb_spec c 16) as [Hlt|Hge].
  - rewrite u8_small by lia. rewrite IH by lia.
    replace (Z.to_nat (16 - c)) with (S (Z.to_nat (16 - (c + 1)))) by lia.
    reflexivity.
  - replace (Z.to_nat (16 - c)) with 0%nat by lia. reflexivity.
Qed.

(** X1: With [clrEol] set, [LCDMessage] follows the text by as many blanks as
    lie between the column after the text, taken modulo 256, and column 16;
    when the text ends at or before column 16, text and blanks together end
    exactly there, and when it ends beyond it (below 256) nothing is added. *)
Theorem LCDMessage_clears_to_end (r c : Z) (msg : string)
        (k : keys) (w : world smf) :
  exists blanks : nat,
    LCDMessage r c msg true k w
    = Ret tt (log ([LcdSetCursor c r; LcdPrint msg]
                     ++ repeat (LcdWrite " ") blanks) w) /\
    blanks = Z.to_nat (LCD_COLS - u8 (c + strlen msg)) /\
    (0 <= c -> c + strlen msg <= LCD_COLS ->
     c + strlen msg + Z.of_nat blanks = LCD_COLS) /\
    (LCD_COLS <= c + strlen msg < 256 -> blanks = 0%nat).
Proof.
  exists (Z.to_nat (LCD_COLS - u8 (c + strlen msg))).
  pose proof (u8_range (c + strlen msg)) as R.
  split.
  { rewrite LCDMessage_run. unfold message_trace.
    rewrite clr_trace_blanks; [reflexivity|lia|unfold LCD_COLS; lia]. }
  split; [reflexivity|].
  unfold LCD_COLS in *. split.
  - intros Hc Hfit. assert (0 <= strlen msg) by (unfold strlen; lia).
    rewrite u8_small by lia. lia.
  - intros Hover. rewrite u8_small by lia. lia.
Qed.

(** *** Which passes can hang, and which read the buttons *)

Lemma serial_out_message (r c : Z) (msg : string) (b : bool) :
  serial_out (message_trace r c msg b) = [].
Proof. apply quiet_message. Qed.

Lemma btn_reads_message (r c : Z) (msg : string) (b : bool) :
  btn_reads (message_trace r c msg b) = [].
Proof. apply quiet_message. Qed.

Ltac quiet :=
  world_fields;
  rewrite ?serial_out_app, ?smf_calls_app, ?btn_reads_app,
    ?serial_out_message, ?smf_calls_message, ?btn_reads_message;
  cbn [serial_out smf_calls btn_reads app map];
  rewrite ?app_nil_r; try reflexivity.




(** X3: Outside [LSSelect] and [MSProcess] no button is read: the pass is the
    same whatever the keys report, and a press made then is not seen. *)
Theorem keys_unread_elsewhere (k k' : keys) (cur : seq_state) (w : world smf) :
  (lcd_s w <> LSSelect ->
   lcdFSM cur k w = lcdFSM cur k' w /\
   btn_reads (trace (after (lcdFSM cur k w))) = btn_reads (trace w)) /\
  (midi_s w <> MSProcess ->
   midiFSM cur k w = midiFSM cur k' w /\
   btn_reads (trace (after (midiFSM cur k w))) = btn_reads (trace w)).
Proof.
  split.
  - intro Hn. destruct (lcd_s w) eqn:Hs; [|congruence|].
    + rewrite !lcd_begin by exact Hs. split; [reflexivity|]. cbv zeta.
      destruct (f_open (plFile w)); [cbn [after]; quiet|].
      destruct (sd_playlist w); cbn [after]; quiet.
    + rewrite !lcd_showfile by exact Hs. split; [reflexivity|]. cbv zeta.
      cbn [after]. quiet.
  - intro Hn. destruct (midi_s w) eqn:Hs; [| | |congruence|].
    + rewrite !midi_begin by exact Hs. split; [reflexivity|].
      cbn [after]. quiet.
    + rewrite !midi_load by exact Hs. split; [reflexivity|]. cbv zeta.
      destruct (smf_load (cstr (fname w)) (SMF w)) as [err q]. cbn [fst snd].
      destruct (err =? E_OK); cbn [after]; quiet.
    + rewrite !midi_open by exact Hs. split; [reflexivity|].
      cbn [after]. quiet.
    + rewrite !midi_close by exact Hs. split; [reflexivity|].
      cbn [after]. world_fields. rewrite btn_reads_app.
      change (btn_reads (Smf SmfClose :: silence_trace)) with (@nil nat).
      now rewrite app_nil_r.
Qed.

(** *** One machine per pass *)

Lemma lcdFSM_play (k : keys) (cur : seq_state) (w : world smf) :
  same_play w (after (lcdFSM cur k w)).
Proof.
  unfold same_play.
  destruct (lcd_s w) eqn:Hs.
  - rewrite lcd_begin by exact Hs. cbv zeta.
    destruct (f_open (plFile w)); [cbn [after]; repeat split; quiet|].
    destruct (sd_playlist w); cbn [after]; repeat split; quiet.
  - rewrite lcd_select by exact Hs. cbv zeta.
    destruct (is_press (k 4%nat)); [cbn [after]; repeat split; quiet|].
    destruct (is_press (k 3%nat)); [cbn [after]; repeat split; quiet|].
    destruct (is_press (k 0%nat)); [cbn [after]; repeat split; quiet|].
    destruct (is_press (k 1%nat)); [cbn [after]; repeat split; quiet|].
    destruct (is_press (k 2%nat)); cbn [after]; repeat split; quiet.
  - rewrite lcd_showfile by exact Hs. cbv zeta. cbn [after].
    repeat split; quiet.
Qed.

Lemma one_machine_nav_play (k : keys) (w : world smf) :
  (loop_s w = LCDSeq -> same_play w (after (loop k w))) /\
  (loop_s w = MIDISeq -> same_nav w (after (loop k w))).
Proof.
  split; intro L.
  - rewrite loop_lcd by exact L.
    pose proof (lcdFSM_play k LCDSeq w) as P.
    destruct (lcdFSM LCDSeq k w) as [s1 w1|w1]; cbn [after] in *; exact P.
  - rewrite loop_midi by exact L.
    pose proof (midiFSM_nav k MIDISeq w) as N.
    destruct (midiFSM MIDISeq k w) as [s1 w1|w1]; cbn [after] in *; exact N.
Qed.

(** X4: A pass of [loop] runs one machine only.  When the file-selection machine
    has control, the playback state and the sequencer are untouched, no byte
    goes out on the serial port and the sequencer is not called; when the
    playback machine has control, the cursor, the selected name, the
    selection state and the play list file are untouched. *)
Theorem one_machine_per_pass (k : keys) (w : world smf) :
  (loop_s w = LCDSeq -> same_play w (after (loop k w))) /\
  (loop_s w = MIDISeq -> same_nav w (after (loop k w))).
Proof. exact (one_machine_nav_play k w). Qed.

(** *** Runs from the world [setup()] leaves *)



Lemma run_reachable (ks : list keys) (w w' : world smf) :
  reachable w -> run ks w = Ret tt w' -> reachable w'.
Proof.
  revert w; induction ks as [|k ks IH]; intros w R E; cbn [run] in E.
  - apply (f_equal after) in E. cbn [after] in E. now subst.
  - destruct (loop k w) as [[] w1|w1] eqn:L; [|discriminate].
    apply (IH w1); [|exact E]. eapply reach_loop; eassumption.
Qed.


(** X6: In every world the sketch can reach the cursor is a valid index, also on
    play lists of more than 256 names, and the record [LSShowFile] reads at
    it lies inside the play list file. *)
Theorem cursor_always_valid (w : world smf) :
  reachable w ->
  0 <= plIndex w <= plCount w - 1 /\
  plIndex w <= 255 /\
  exists data,
    sd_playlist w = Some data /\
    FNAME_SIZE * plIndex w + FNAME_SIZE <= Z.of_nat (List.length data).
Proof.
  intro R. destruct (reachable_inv w R) as (data & [I1 [Hn Hlen] I3 _ _ _ _]).
  split; [lia|]. split; [lia|].
  exists data. split; [exact I1|]. unfold FNAME_SIZE in *. lia.
Qed.

Lemma lcdFSM_switch_state (k : keys) (w : world smf) :
  result (lcdFSM LCDSeq k w) = Some MIDISeq ->
  lcd_s (after (lcdFSM LCDSeq k w)) = LSBegin.
Proof.
  intro E. destruct (lcdFSM_switch_only k w E) as (Hs & Hk).
  rewrite lcd_select by exact Hs. cbv zeta.
  unfold BTN_SELECT in Hk. rewrite Hk. reflexivity.
Qed.

Lemma midiFSM_switch_state (k : keys) (w : world smf) :
  result (midiFSM MIDISeq k w) = Some LCDSeq ->
  midi_s (after (midiFSM MIDISeq k w)) = MSBegin.
Proof.
  destruct (midi_s w) eqn:Hs.
  - rewrite midi_begin by exact Hs. discriminate.
  - rewrite midi_load by exact Hs. cbv zeta.
    destruct (smf_load (cstr (fname w)) (SMF w)) as [err q]. cbn [fst snd].
    destruct (err =? E_OK); discriminate.
  - rewrite midi_open by exact Hs. discriminate.
  - rewrite midi_process_run by exact Hs. discriminate.
  - rewrite midi_close by exact Hs. reflexivity.
Qed.

Lemma loop_parked (k : keys) (w w' : world smf) :
  parked w -> loop k w = Ret tt w' -> parked w'.
Proof.
  intros [P1 P2] E. destruct (loop_s w) eqn:L.
  - rewrite loop_lcd in E by exact L.
    pose proof (lcdFSM_play k LCDSeq w) as (M & _).
    pose proof (lcdFSM_switch_state k w) as Sw.
    destruct (lcdFSM LCDSeq k w) as [s1 w1|w1]; [|discriminate].
    cbn [after result] in *.
    apply (f_equal after) in E. cbn [after] in E. subst w'.
    destruct s1; split; intro F; try discriminate.
    + change (midi_s w1 = MSBegin). rewrite M. now apply P1.
    + change (lcd_s w1 = LSBegin). now apply Sw.
  - rewrite loop_midi in E by exact L.
    pose proof (midiFSM_nav k MIDISeq w) as (_ & _ & N & _).
    pose proof (midiFSM_switch_state k w) as Sw.
    destruct (midiFSM MIDISeq k w) as [s1 w1|w1]; [|discriminate].
    cbn [after result] in *.
    apply (f_equal after) in E. cbn [after] in E. subst w'.
    destruct s1; split; intro F; try discriminate.
    + change (midi_s w1 = MSBegin). now apply Sw.
    + change (lcd_s w1 = LSBegin). rewrite N. now apply P2.
Qed.

Lemma reachable_parked (w : world smf) : reachable w -> parked w.
Proof.
  induction 1 as [n data q C|k w w' R IH E].
  - split; [reflexivity|discriminate].
  - exact (loop_parked k w w' IH E).
Qed.

(** X7: The machine that does not have control is parked in its first state:
    while a name is being selected the playback machine is in [MSBegin], and
    while a file is playing the file-selection machine is in [LSBegin]. *)
Theorem idle_machine_is_parked (w : world smf) :
  reachable w ->
  (loop_s w = LCDSeq -> midi_s w = MSBegin) /\
  (loop_s w = MIDISeq -> lcd_s w = LSBegin).
Proof. intro R. exact (reachable_parked w R). Qed.

(** *** Moving through the play list *)

Lemma select_pass (k : keys) (w : world smf) (b : nat) :
  loop_s w = LCDSeq -> lcd_s w = LSSelect ->
  first_press nav_order k = Some b -> b <> BTN_SELECT ->
  exists w1,
    loop k w = Ret tt w1 /\
    loop_s w1 = LCDSeq /\ lcd_s w1 = LSShowFile /\
    plIndex w1 = next_cursor (plCount w) (plIndex w) (Some b) /\
    plCount w1 = plCount w /\ sd_playlist w1 = sd_playlist w /\
    exists pre, trace w1 = trace w ++ pre.
Proof.
  intros L Hs Hk Hb.
  rewrite loop_lcd by exact L. rewrite lcd_select by exact Hs. cbv zeta.
  pose proof (first_press_nav k b Hk) as P. unfold BTN_SELECT in Hb.
  destruct b as [|[|[|[|[|b]]]]]; try contradiction.
  - destruct P as (-> & -> & ->). eexists. repeat split. eexists; reflexivity.
  - destruct P as (-> & -> & -> & ->). eexists. repeat split.
    eexists; reflexivity.
  - destruct P as (-> & -> & -> & -> & ->). eexists. repeat split.
    eexists; reflexivity.
  - destruct P as (-> & ->). eexists. repeat split. eexists; reflexivity.
Qed.

Lemma show_pass (k : keys) (w : world smf) (data : list ascii) :
  inv w data -> loop_s w = LCDSeq -> lcd_s w = LSShowFile ->
  exists w2,
    loop k w = Ret tt w2 /\
    loop_s w2 = LCDSeq /\ lcd_s w2 = LSSelect /\
    plIndex w2 = plIndex w /\ plCount w2 = plCount w /\
    fname w2 = entry data (plIndex w) ++ [NUL] /\
    trace w2 = trace w
                 ++ message_trace 1 0 (cstr (fname w2)) true
                 ++ [LcdSetCursor (LCD_COLS - 2) 1;
                     LcdPrintChar (if plIndex w =? 0 then " " else "<");
                     LcdPrintChar (if plIndex w =? u16 (plCount w - 1)
                                   then " " else ">")].
Proof.
  intros I L Hs.
  pose proof (showfile_reads w data I Hs) as R. cbv zeta in R.
  destruct R as (R1 & _ & _).
  rewrite loop_lcd by exact L. rewrite lcd_showfile by exact Hs. cbv zeta.
  rewrite R1.
  eexists. split; [reflexivity|].
  world_fields. repeat split.
Qed.

Lemma nav_step (k1 k2 : keys) (w : world smf) (data : list ascii) (b : nat) :
  reachable w -> sd_playlist w = Some data ->
  loop_s w = LCDSeq -> lcd_s w = LSSelect ->
  first_press nav_order k1 = Some b -> b <> BTN_SELECT ->
  exists w2,
    run [k1; k2] w = Ret tt w2 /\
    reachable w2 /\ sd_playlist w2 = Some data /\
    loop_s w2 = LCDSeq /\ lcd_s w2 = LSSelect /\
    plCount w2 = plCount w /\
    plIndex w2 = next_cursor (plCount w) (plIndex w) (Some b) /\
    fname w2 = entry data (plIndex w2) ++ [NUL] /\
    exists pre post,
      trace w2 = trace w ++ pre
                   ++ LcdSetCursor 0 1 :: LcdPrint (cstr (fname w2)) :: post.
Proof.
  intros R Hcard L Hs Hk Hb.
  destruct (select_pass k1 w b L Hs Hk Hb)
    as (w1 & E1 & L1 & S1 & X1 & N1 & C1 & pre & T1).
  assert (R1 : reachable w1) by (eapply reach_loop; eassumption).
  destruct (reachable_inv w1 R1) as (d1 & I1).
  assert (d1 = data) by (pose proof (inv_card w1 d1 I1); congruence). subst d1.
  destruct (show_pass k2 w1 data I1 L1 S1)
    as (w2 & E2 & L2 & S2 & X2 & N2 & F2 & T2).
  assert (R2 : reachable w2) by (eapply reach_loop; eassumption).
  exists w2. cbn [run]. rewrite E1, E2.
  split; [reflexivity|]. split; [exact R2|].
  split.
  { destruct (reachable_inv w2 R2) as (d2 & I2).
    pose proof (loop_inv k2 w1 w2 data I1 E2) as I2'.
    exact (inv_card w2 data I2'). }
  split; [exact L2|]. split; [exact S2|].
  split; [congruence|]. split; [congruence|].
  split; [rewrite X2; exact F2|].
  exists pre. eexists. rewrite T2, T1, <- app_assoc.
  unfold message_trace. cbn [app]. reflexivity.
Qed.

(** X8: After a navigation key (Left, Up, Down or Right acted on in
    [LSSelect]) and the pass that follows it, the machine is back in
    [LSSelect] on the cursor the key led to, [fname] holds the play list
    record at that cursor, and that record's name was printed at the start
    of row 1. *)
Theorem display_follows_cursor (k1 k2 : keys) (w : world smf)
        (data : list ascii) (b : nat) :
  reachable w -> sd_playlist w = Some data ->
  loop_s w = LCDSeq -> lcd_s w = LSSelect ->
  first_press nav_order k1 = Some b -> b <> BTN_SELECT ->
  exists w2,
    run [k1; k2] w = Ret tt w2 /\
    loop_s w2 = LCDSeq /\ lcd_s w2 = LSSelect /\
    plIndex w2 = next_cursor (plCount w) (plIndex w) (Some b) /\
    fname w2 = entry data (plIndex w2) ++ [NUL] /\
    exists pre post,
      trace w2 = trace w ++ pre
                   ++ LcdSetCursor 0 1 :: LcdPrint (cstr (fname w2)) :: post.
Proof.
  intros R Hcard L Hs Hk Hb.
  destruct (nav_step k1 k2 w data b R Hcard L Hs Hk Hb)
    as (w2 & E & _ & _ & L2 & S2 & _ & X2 & F2 & T2).
  exists w2. repeat split; assumption.
Qed.

Lemma shown_name (w : world smf) (data : list ascii) :
  reachable w -> sd_playlist w = Some data -> lcd_s w = LSSelect ->
  fname w = entry data (plIndex w) ++ [NUL].
Proof.
  intros R Hcard Hs. destruct (reachable_inv w R) as (d & I).
  assert (d = data) by (pose proof (inv_card w d I); congruence). subst d.
  exact (inv_shown w data I Hs).
Qed.

(** X9: Right then Left, when the cursor is neither at the last name nor at
    255, and Left then Right, when it is not at the first name, lead back to
    the same cursor with the same name in [fname]: four passes, the second
    and fourth being the displays. *)
Theorem there_and_back (kr kl k2 k4 : keys) (w : world smf) :
  reachable w -> loop_s w = LCDSeq -> lcd_s w = LSSelect ->
  first_press nav_order kr = Some BTN_RIGHT ->
  first_press nav_order kl = Some BTN_LEFT ->
  (plIndex w + 1 <= plCount w - 1 -> plIndex w < 255 ->
   exists w4,
     run [kr; k2; kl; k4] w = Ret tt w4 /\ lcd_s w4 = LSSelect /\
     plIndex w4 = plIndex w /\ fname w4 = fname w) /\
  (1 <= plIndex w ->
   exists w4,
     run [kl; k2; kr; k4] w = Ret tt w4 /\ lcd_s w4 = LSSelect /\
     plIndex w4 = plIndex w /\ fname w4 = fname w).
Proof.
  intros R L Hs Hr Hl.
  destruct (reachable_inv w R) as (data & I).
  pose proof (inv_card w data I) as Hcard.
  destruct (inv_count w data I) as (Hn & _).
  destruct (inv_index w data I) as (Hi & Hle).
  pose proof (shown_name w data R Hcard Hs) as F0.
  assert (Hnr : BTN_RIGHT <> BTN_SELECT) by discriminate.
  assert (Hnl : BTN_LEFT <> BTN_SELECT) by discriminate.
  split.
  - intros Hlast H255.
    destruct (nav_step kr k2 w data _ R Hcard L Hs Hr Hnr)
      as (w2 & E2 & R2 & C2 & L2 & S2 & N2 & X2 & _).
    destruct (nav_step kl k4 w2 data _ R2 C2 L2 S2 Hl Hnl)
      as (w4 & E4 & _ & _ & _ & S4 & _ & X4 & F4 & _).
    assert (Hback : plIndex w4 = plIndex w).
    { rewrite X4, X2, N2. unfold next_cursor, BTN_RIGHT, BTN_LEFT.
      rewrite (u16_small (plCount w - 1)) by lia.
      destruct (Z.eqb_spec (plIndex w) (plCount w - 1)); [lia|].
      rewrite (u8_small (plIndex w + 1)) by lia.
      destruct (Z.eqb_spec (plIndex w + 1) 0); [lia|].
      rewrite u8_small by lia. lia. }
    exists w4. split.
    { change [kr; k2; kl; k4] with ([kr; k2] ++ [kl; k4]).
      cbn [run app] in *.
      destruct (loop kr w) as [[] x1|x1]; [|discriminate].
      destruct (loop k2 x1) as [[] x2|x2]; [|discriminate].
      apply (f_equal after) in E2. cbn [after] in E2. subst x2. exact E4. }
    split; [exact S4|]. split; [exact Hback|].
    rewrite F4, Hback. symmetry. exact F0.
  - intros Hfirst.
    destruct (nav_step kl k2 w data _ R Hcard L Hs Hl Hnl)
      as (w2 & E2 & R2 & C2 & L2 & S2 & N2 & X2 & _).
    destruct (nav_step kr k4 w2 data _ R2 C2 L2 S2 Hr Hnr)
      as (w4 & E4 & _ & _ & _ & S4 & _ & X4 & F4 & _).
    assert (Hback : plIndex w4 = plIndex w).
    { rewrite X4, X2, N2. unfold next_cursor, BTN_RIGHT, BTN_LEFT.
      rewrite (u16_small (plCount w - 1)) by lia.
      destruct (Z.eqb_spec (plIndex w) 0); [lia|].
      rewrite (u8_small (plIndex w - 1)) by lia.
      destruct (Z.eqb_spec (plIndex w - 1) (plCount w - 1)); [lia|].
      rewrite u8_small by lia. lia. }
    exists w4. split.
    { cbn [run] in *.
      destruct (loop kl w) as [[] x1|x1]; [|discriminate].
      destruct (loop k2 x1) as [[] x2|x2]; [|discriminate].
      apply (f_equal after) in E2. cbn [after] in E2. subst x2. exact E4. }
    split; [exact S4|]. split; [exact Hback|].
    rewrite F4, Hback. symmetry. exact F0.
Qed.

(** X10: A Select press in [LSSelect] leads, three passes later, to a single
    [SMF.load] whose argument is the name held in the play list record at
    the cursor; the playback machine is then in [MSProcess] or, if the load
    failed, in [MSClose], and no byte has gone out on the serial port. *)
Theorem selected_name_is_loaded (k1 k2 k3 : keys) (w : world smf)
        (data : list ascii) :
  reachable w -> sd_playlist w = Some data ->
  loop_s w = LCDSeq -> lcd_s w = LSSelect ->
  k1 BTN_SELECT = KEY_PRESS ->
  exists w3,
    run [k1; k2; k3] w = Ret tt w3 /\
    loop_s w3 = MIDISeq /\
    (midi_s w3 = MSProcess \/ midi_s w3 = MSClose) /\
    smf_calls (trace w3)
    = smf_calls (trace w) ++ [SmfLoad (cstr (entry data (plIndex w) ++ [NUL]))] /\
    serial_out (trace w3) = serial_out (trace w).
Proof.
  intros R Hcard L Hs Hk.
  pose proof (shown_name w data R Hcard Hs) as F0.
  assert (M0 : midi_s w = MSBegin) by (apply (reachable_parked w R); exact L).
  unfold BTN_SELECT in Hk.
  cbn [run].
  rewrite (loop_lcd k1 w L), (lcd_select k1 LCDSeq w Hs). cbv zeta.
  rewrite Hk. cbn [is_press map].
  set (w1 := set_loop_s MIDISeq (set_lcd_s LSBegin (log [BtnRead 4%nat] w))).
  assert (L1 : loop_s w1 = MIDISeq) by reflexivity.
  assert (M1 : midi_s w1 = MSBegin) by exact M0.
  rewrite (loop_midi k2 w1 L1), (midi_begin k2 MIDISeq w1 M1).
  set (w2 := set_loop_s MIDISeq (set_midi_s MSLoad (log _ w1))).
  assert (L2 : loop_s w2 = MIDISeq) by reflexivity.
  assert (M2 : midi_s w2 = MSLoad) by reflexivity.
  assert (F2 : fname w2 = entry data (plIndex w) ++ [NUL]) by exact F0.
  rewrite (loop_midi k3 w2 L2), (midi_load k3 MIDISeq w2 M2). cbv zeta.
  rewrite F2.
  destruct (smf_load (cstr (entry data (plIndex w) ++ [NUL])) (SMF w2))
    as [err q]. cbn [fst snd].
  destruct (err =? E_OK); eexists; (split; [reflexivity|]);
    (split; [reflexivity|]); (split; [auto|]); subst w2 w1; split; quiet.
Qed.

(** *** What a pass in [MSProcess] does with the sequencer *)

Lemma skipn_own {A} (a b : list A) : skipn (List.length a) (a ++ b) = b.
Proof. induction a as [|x a IH]; [reflexivity|exact IH]. Qed.

Lemma advances_app (a b : list smf_call) :
  advances (a ++ b) = (advances a + advances b)%nat.
Proof.
  induction a as [|c a IH]; [reflexivity|].
  destruct c; cbn; rewrite IH; reflexivity.
Qed.



Lemma check_keys_events (k : keys) (p : world smf) :
  exists acts,
    trace (after (check_keys k p)) = trace p ++ acts /\
    advances (smf_calls acts) = 0%nat /\
    serial_out acts
    = match first_press play_order k with
      | Some 3%nat | Some 0%nat => all_sound_off
      | _ => []
      end.
Proof.
  rewrite check_keys_run. cbv zeta. cbn [after].
  unfold play_order, BTN_LEFT, BTN_RIGHT, BTN_UP, BTN_DOWN.
  cbn [first_press].
  destruct (is_press (k 3%nat)); [eexists; split; [reflexivity|split; reflexivity]|].
  destruct (is_press (k 2%nat)); [eexists; split; [reflexivity|split; reflexivity]|].
  destruct (is_press (k 0%nat)); [eexists; split; [reflexivity|split; reflexivity]|].
  destruct (is_press (k 1%nat)); eexists; (split; [reflexivity|split; reflexivity]).
Qed.


(** X12: At the end of the data a pass in [MSProcess] goes to [MSClose] whatever
    the keys report: Rewind restarts the sequencer and Pause or Resume set
    its flag, but the next pass closes the session and hands the mode back
    all the same.  [getNextEvent] is not called in either pass. *)
Theorem end_of_data_closes (k1 k2 : keys) (w : world smf) :
  loop_s w = MIDISeq ->
  midi_s w = MSProcess ->
  smf_isEOF (SMF w) = true ->
  exists w1 w2 t,
    loop k1 w = Ret tt w1 /\ midi_s w1 = MSClose /\ loop_s w1 = MIDISeq /\
    loop k2 w1 = Ret tt w2 /\ midi_s w2 = MSBegin /\ loop_s w2 = LCDSeq /\
    trace w2 = trace w ++ t /\
    advances (smf_calls t) = 0%nat.
Proof.
  intros L Hs He.
  rewrite (loop_midi k1 w L), (midi_process_run k1 MIDISeq w Hs).
  rewrite (play_world_eof w He).
  set (p := set_midi_s MSClose (log [Smf SmfIsEOF] w)).
  destruct (check_keys_events k1 p) as (acts & T & A & _).
  assert (M1 : midi_s (after (check_keys k1 p)) = MSClose).
  { rewrite check_keys_run. cbv zeta. cbn [after].
    destruct (is_press (k1 3%nat)); [reflexivity|].
    destruct (is_press (k1 2%nat)); [reflexivity|].
    destruct (is_press (k1 0%nat)); [reflexivity|].
    destruct (is_press (k1 1%nat)); reflexivity. }
  set (w1 := set_loop_s MIDISeq (after (check_keys k1 p))).
  assert (L1 : loop_s w1 = MIDISeq) by reflexivity.
  assert (M1' : midi_s w1 = MSClose) by exact M1.
  exists w1. eexists. eexists.
  split; [reflexivity|]. split; [exact M1'|]. split; [exact L1|].
  rewrite (loop_midi k2 w1 L1), (midi_close k2 MIDISeq w1 M1').
  split; [reflexivity|]. split; [reflexivity|]. split; [reflexivity|].
  split.
  - subst w1. world_fields. fold (trace (after (check_keys k1 p))).
    rewrite T. subst p. world_fields. rewrite <- !app_assoc. reflexivity.
  - repeat (progress (cbn [app smf_calls advances];
                      rewrite ?smf_calls_app, ?advances_app)).
    rewrite A. reflexivity.
Qed.

End MoreFacts.

(** *** Names, buffers and the extension test *)

Lemma cstr_app_nul (l rest : list ascii) :
  ~ In NUL l -> cstr (l ++ NUL :: rest) = string_of_list_ascii l.
Proof.
  induction l as [|a l IH]; intro Hn; cbn [app cstr string_of_list_ascii].
  - reflexivity.
  - destruct (Ascii.eqb_spec a NUL) as [->|_].
    + exfalso. apply Hn. now left.
    + rewrite IH; [reflexivity|]. intro F. apply Hn. now right.
Qed.

Lemma length_chars (s : string) :
  List.length (list_ascii_of_string s) = String.length s.
Proof. induction s as [|c s IH]; cbn; [reflexivity|now rewrite IH]. Qed.

Lemma getName_shape (name : string) (buf : list ascii) :
  List.length buf = 14%nat -> (String.length name <= 12)%nat ->
  getName name buf
  = list_ascii_of_string name ++ NUL :: skipn (String.length name + 1) buf /\
  List.length (getName name buf) = 14%nat.
Proof.
  intros Hb Hl. unfold getName, store.
  rewrite length_app, length_chars. cbn [List.length].
  rewrite <- app_assoc. cbn [app]. split; [reflexivity|].
  rewrite length_app, length_chars. cbn [List.length].
  rewrite length_skipn. lia.
Qed.

Lemma ascii_diff (a b : ascii) :
  (Z.of_nat (nat_of_ascii a) - Z.of_nat (nat_of_ascii b) =? 0) = Ascii.eqb a b.
Proof.
  destruct (Ascii.eqb_spec a b) as [->|Hne].
  - rewrite Z.sub_diag. reflexivity.
  - apply Z.eqb_neq. intro E. apply Hne.
    rewrite <- (ascii_nat_embedding a), <- (ascii_nat_embedding b).
    f_equal. lia.
Qed.

Lemma tolower_nul (c : ascii) : c <> NUL -> tolower c <> NUL.
Proof.
  intros Hc. unfold tolower. cbv zeta.
  destruct ((65 <=? nat_of_ascii c)%nat && (nat_of_ascii c <=? 90)%nat) eqn:E;
    [|exact Hc].
  apply andb_prop in E. destruct E as (E1 & E2).
  apply Nat.leb_le in E1. apply Nat.leb_le in E2.
  intro F. apply (f_equal nat_of_ascii) in F.
  rewrite nat_ascii_embedding in F by lia. cbn in F. lia.
Qed.

Lemma strcasecmp_lower (a b : string) :
  ~ In NUL (list_ascii_of_string a) -> ~ In NUL (list_ascii_of_string b) ->
  (strcasecmp a b =? 0) = String.eqb (lower a) (lower b).
Proof.
  unfold lower.
  revert b; induction a as [|x a IH]; intros [|y b] Ha Hb;
    cbn [strcasecmp list_ascii_of_string map string_of_list_ascii String.eqb].
  - reflexivity.
  - assert (Hy : tolower y <> NUL).
    { apply tolower_nul. intro F. apply Hb. left. now rewrite F. }
    apply Z.eqb_neq. intro F.
    assert (N : nat_of_ascii (tolower y) = 0%nat) by lia.
    apply Hy. rewrite <- (ascii_nat_embedding (tolower y)), N. reflexivity.
  - assert (Hx : tolower x <> NUL).
    { apply tolower_nul. intro F. apply Ha. left. now rewrite F. }
    apply Z.eqb_neq. intro F.
    assert (N : nat_of_ascii (tolower x) = 0%nat) by lia.
    apply Hx. rewrite <- (ascii_nat_embedding (tolower x)), N. reflexivity.
  - cbv zeta. rewrite ascii_diff.
    destruct (Ascii.eqb_spec (tolower x) (tolower y)) as [E|E].
    + apply IH; intro F; [apply Ha|apply Hb]; now right.
    + apply Z.eqb_neq. intro F. apply E.
      rewrite <- (ascii_nat_embedding (tolower x)),
        <- (ascii_nat_embedding (tolower y)).
      f_equal. lia.
Qed.

Lemma ext_of_shape (name : string) (tail : list ascii) :
  (4 <= String.length name <= 12)%nat ->
  ~ In NUL (list_ascii_of_string name) ->
  ext_of (list_ascii_of_string name ++ NUL :: tail)
  = string_of_list_ascii
      (skipn (String.length name - 4) (list_ascii_of_string name)).
Proof.
  intros Hl Hn. unfold ext_of.
  rewrite cstr_app_nul by exact Hn.
  rewrite string_of_list_ascii_of_string.
  unfold strlen, MIDI_EXT. cbn [String.length].
  rewrite u16_small by lia.
  replace (Z.to_nat (Z.of_nat (String.length name) - Z.of_nat 4))
    with (String.length name - 4)%nat by lia.
  rewrite skipn_app, length_chars.
  replace (String.length name - 4 - String.length name)%nat with 0%nat by lia.
  cbn [skipn]. apply cstr_app_nul.
  intro F. apply Hn. revert F.
  generalize (String.length name - 4)%nat. intro n.
  generalize (list_ascii_of_string name). intro l.
  revert l; induction n as [|n IH]; intros [|c l] F; cbn [skipn] in F;
    try exact F.
  right. now apply IH.
Qed.

Lemma ext_test (name : string) (tail : list ascii) :
  (4 <= String.length name <= 12)%nat ->
  ~ In NUL (list_ascii_of_string name) ->
  (strcasecmp MIDI_EXT (ext_of (list_ascii_of_string name ++ NUL :: tail)) =? 0)
  = ends_in_mid name.
Proof.
  intros Hl Hn. rewrite ext_of_shape by assumption.
  unfold ends_in_mid. cbv zeta. rewrite length_chars.
  replace (4 <=? String.length name)%nat with true
    by (symmetry; apply Nat.leb_le; lia).
  cbn [andb].
  rewrite strcasecmp_lower.
  - unfold lower at 2. rewrite list_ascii_of_string_of_list_ascii. reflexivity.
  - cbn. intuition discriminate.
  - rewrite list_ascii_of_string_of_list_ascii.
    intro F. apply Hn. revert F.
    generalize (String.length name - 4)%nat. intro n.
    generalize (list_ascii_of_string name). intro l.
    revert l; induction n as [|n IH]; intros [|c l] F; cbn [skipn] in F;
      try exact F.
    right. now apply IH.
Qed.

(** *** The play list that [createPlaylistFile] writes *)

Lemma u16_idem (a b : Z) : u16 (u16 a + b) = u16 (a + b).
Proof. unfold u16. apply Z.add_mod_idemp_l. lia. Qed.

Lemma u16_range (z : Z) : 0 <= u16 z < 65536.
Proof. unfold u16. apply Z.mod_pos_bound. lia. Qed.

Lemma record_holds (name : string) (tail : list ascii) :
  (String.length name <= 12)%nat ->
  ~ In NUL (list_ascii_of_string name) ->
  List.length (list_ascii_of_string name ++ NUL :: tail) = 14%nat ->
  holds_name (firstn (Z.to_nat FNAME_SIZE)
                     (list_ascii_of_string name ++ NUL :: tail)) name.
Proof.
  intros Hl Hn Hb. unfold FNAME_SIZE.
  change (Z.to_nat 13) with 13%nat.
  split; [rewrite length_firstn; lia|]. split; [exact Hn|].
  exists (firstn (12 - String.length name) tail).
  rewrite firstn_app, length_chars.
  rewrite firstn_all2 by (rewrite length_chars; lia).
  replace (13 - String.length name)%nat
    with (S (12 - String.length name)) by lia.
  reflexivity.
Qed.

Lemma scan_dir_lists (dir : list dirent) :
  Forall name_ok dir ->
  forall (buf out : list ascii) (count : Z),
    List.length buf = 14%nat -> 0 <= count < 65536 ->
    exists recs,
      fst (scan_dir dir buf out count) = out ++ List.concat recs /\
      Forall2 holds_name recs (listed dir) /\
      snd (scan_dir dir buf out count)
      = u16 (count + Z.of_nat (List.length (listed dir))).
Proof.
  induction 1 as [|e dir (Hl & Hn & H4) Hok IH]; intros buf out count Hb Hc.
  - exists []. cbn. rewrite app_nil_r, Z.add_0_r, u16_small by lia.
    repeat split. constructor.
  - cbn [scan_dir]. cbv zeta.
    destruct (getName_shape (d_name e) buf Hb Hl) as (Hshape & Hlen).
    remember (getName (d_name e) buf) as b' eqn:Eb.
    unfold listed. cbn [filter].
    destruct (d_isFile e) eqn:Hf; cbn [andb].
    + specialize (H4 eq_refl).
      assert (Hext : (strcasecmp MIDI_EXT (ext_of b') =? 0)
                     = ends_in_mid (d_name e))
        by (rewrite Hshape; apply ext_test; [lia|exact Hn]).
      rewrite Hext.
      destruct (ends_in_mid (d_name e)) eqn:Hm.
      * destruct (IH b' (out ++ firstn (Z.to_nat FNAME_SIZE) b')
                     (u16 (count + 1)) Hlen (u16_range _))
          as (recs & E1 & E2 & E3).
        exists (firstn (Z.to_nat FNAME_SIZE) b' :: recs).
        split; [rewrite E1, <- app_assoc; reflexivity|].
        split.
        { cbn [map]. constructor; [|exact E2].
          rewrite Hshape. apply record_holds; try assumption.
          rewrite <- Hshape. exact Hlen. }
        rewrite E3. unfold listed. cbn [map List.length].
        rewrite u16_idem. f_equal. lia.
      * apply IH; assumption.
    + apply IH; assumption.
Qed.

Lemma entry_concat (recs : list (list ascii)) (tail : list ascii) (i : nat)
      (r : list ascii) :
  Forall (fun x => List.length x = 13%nat) recs ->
  nth_error recs i = Some r ->
  entry (List.concat recs ++ tail) (Z.of_nat i) = r.
Proof.
  unfold entry, FNAME_SIZE.
  replace (Z.to_nat (13 * Z.of_nat i)) with (13 * i)%nat by lia.
  change (Z.to_nat 13) with 13%nat.
  revert recs; induction i as [|i IH]; intros [|x recs] Hall E;
    try discriminate; inversion Hall as [|? ? Hx Hrest]; subst.
  - cbn in E. injection E as ->. rewrite Nat.mul_0_r.
    cbn [List.concat skipn].
    rewrite <- app_assoc, firstn_app, Hx, Nat.sub_diag.
    rewrite firstn_all2 by lia. cbn [firstn]. apply app_nil_r.
  - cbn [nth_error] in E. cbn [List.concat].
    rewrite <- app_assoc.
    replace (13 * S i)%nat with (List.length x + 13 * i)%nat by lia.
    rewrite skipn_app, Nat.add_comm.
    replace (13 * i + List.length x - List.length x)%nat with (13 * i)%nat by lia.
    rewrite skipn_all2 by lia. cbn [app].
    apply IH; assumption.
Qed.

Lemma holds_name_cstr (r : list ascii) (name : string) (rest : list ascii) :
  holds_name r name -> cstr (r ++ rest) = name.
Proof.
  intros (_ & Hn & tail & ->).
  rewrite <- app_assoc. cbn [app].
  rewrite cstr_app_nul by exact Hn.
  apply string_of_list_ascii_of_string.
Qed.

Lemma Forall2_nth {A B} (P : A -> B -> Prop) (la : list A) (lb : list B)
      (i : nat) (b : B) :
  Forall2 P la lb -> nth_error lb i = Some b ->
  exists a, nth_error la i = Some a /\ P a b.
Proof.
  intro F. revert i; induction F as [|x y la lb Hxy F IH]; intros [|i] E;
    try discriminate.
  - injection E as <-. exists x. split; [reflexivity|exact Hxy].
  - apply IH. exact E.
Qed.

Lemma Forall2_lengths {A B} (P : A -> B -> Prop) (la : list A) (lb : list B) :
  Forall2 P la lb ->
  List.length la = List.length lb /\ Forall (fun a => exists b, P a b) la.
Proof.
  induction 1 as [|x y la lb Hxy F (IH1 & IH2)]; [split; constructor|].
  split; [cbn; now rewrite IH1|]. constructor; [now exists y|exact IH2].
Qed.

Lemma concat_length13 (recs : list (list ascii)) :
  Forall (fun x => List.length x = 13%nat) recs ->
  List.length (List.concat recs) = (13 * List.length recs)%nat.
Proof.
  induction 1 as [|x recs Hx _ IH]; [reflexivity|].
  cbn [List.concat List.length]. rewrite length_app, Hx, IH. lia.
Qed.

Section StartUp.

Context {smf : Type} `{Sequencer smf}.

Lemma createPlaylistFile_run (cd : card) (k : keys) (w : world smf) :
  card_writable cd = true ->
  createPlaylistFile cd k w =
  let r := scan_dir (card_dir cd) (card_junk cd) [] 0 in
  Ret (snd r)
      (set_sd_playlist
         (Some (store (fst r)
                      (match sd_playlist w with
                       | Some old => old
                       | None => []
                       end))) w).
Proof.
  intro Hw. unfold createPlaylistFile. rewrite Hw. reflexivity.
Qed.

(** X13: On a card whose names fit the buffer, [createPlaylistFile] returns the
    number of regular files whose name ends in ".MID" in any letter case,
    modulo 65536, and leaves a play list whose record [i], read as a C
    string, is the [i]-th such name in directory order; directories and
    other files are left out, and what an older play list held beyond the
    new records stays in the file. *)
Theorem playlist_file_lists_midi_files (cd : card) (k : keys) (w : world smf) :
  card_fine cd ->
  card_writable cd = true ->
  exists data,
    createPlaylistFile cd k w
    = Ret (u16 (Z.of_nat (List.length (listed (card_dir cd)))))
          (set_sd_playlist (Some data) w) /\
    FNAME_SIZE * Z.of_nat (List.length (listed (card_dir cd)))
    <= Z.of_nat (List.length data) /\
    (forall (i : nat) (name : string),
        nth_error (listed (card_dir cd)) i = Some name ->
        cstr (entry data (Z.of_nat i)) = name) /\
    skipn (13 * List.length (listed (card_dir cd))) data
    = skipn (13 * List.length (listed (card_dir cd)))
            (match sd_playlist w with Some old => old | None => [] end).
Proof.
  intros (Hnames & Hjunk) Hw.
  rewrite createPlaylistFile_run by exact Hw. cbv zeta.
  destruct (scan_dir_lists (card_dir cd) Hnames (card_junk cd) [] 0 Hjunk)
    as (recs & E1 & E2 & E3); [lia|].
  cbn [app] in E1. rewrite E1, E3. rewrite Z.add_0_l.
  destruct (Forall2_lengths _ _ _ E2) as (Hlen & Hall).
  assert (H13 : Forall (fun x => List.length x = 13%nat) recs).
  { eapply Forall_impl; [|exact Hall]. intros r (name & Hr & _). exact Hr. }
  pose proof (concat_length13 recs H13) as Hc.
  eexists. split; [reflexivity|].
  unfold store. rewrite Hc, Hlen.
  split.
  { rewrite length_app, Hc, Hlen. unfold FNAME_SIZE. lia. }
  split.
  - intros i name Hi.
    destruct (Forall2_nth _ _ _ i name E2 Hi) as (r & Hr & Hh).
    rewrite (entry_concat recs _ i r H13 Hr).
    rewrite <- (app_nil_r r). apply holds_name_cstr. exact Hh.
  - rewrite <- Hlen, <- Hc. apply skipn_own.
Qed.

Lemma setup_run (cd : card) (k : keys) (w : world smf) :
  setup cd k w =
  let w0 := log (message_trace 0 0 "  Midi  Player  " false
                   ++ message_trace 1 0 "  ------------  " false) w in
  if negb (card_ok cd)
  then Halt (log (message_trace 1 0 "SD init fail!" true) w0)
  else if negb (card_writable cd)
  then Halt (log (message_trace 1 0 "PL create fail" true) w0)
  else
    let r := scan_dir (card_dir cd) (card_junk cd) [] 0 in
    let w1 :=
      set_plCount (snd r)
        (set_sd_playlist
           (Some (store (fst r)
                        (match sd_playlist w with
                         | Some old => old
                         | None => []
                         end))) w0) in
    if snd r =? 0
    then Halt (log (message_trace 1 0 "No files" true) w1)
    else Ret tt (log [Delay 750] w1).
Proof.
  unfold setup, bind. rewrite !LCDMessage_run. rewrite log_log. cbv zeta.
  destruct (card_ok cd); cbn [negb].
  - unfold ret, createPlaylistFile.
    destruct (card_writable cd); cbn [negb].
    + unfold bind, modify, ret.
      destruct (snd (scan_dir (card_dir cd) (card_junk cd) [] 0) =? 0).
      * unfold LCDErrMessage, bind. rewrite LCDMessage_run. reflexivity.
      * reflexivity.
    + unfold bind, LCDErrMessage, bind. rewrite LCDMessage_run. reflexivity.
  - unfold LCDErrMessage, bind. rewrite LCDMessage_run. reflexivity.
Qed.

(** X14: [setup()] hangs, and [loop()] is never entered, exactly when [SD.begin]
    fails, or the play list cannot be created, or the count of MIDI files
    (modulo 65536) is zero; the message on row 1 then names the cause. *)
Theorem setup_hangs_iff (cd : card) (k : keys) (w : world smf) :
  card_fine cd ->
  (result (setup cd k w) = None <->
   card_ok cd = false \/ card_writable cd = false \/
   u16 (Z.of_nat (List.length (listed (card_dir cd)))) = 0) /\
  (result (setup cd k w) = None ->
   exists pre,
     trace (after (setup cd k w))
     = pre ++ message_trace 1 0
                (if negb (card_ok cd) then "SD init fail!"
                 else if negb (card_writable cd) then "PL create fail"
                 else "No files") true).
Proof.
  intros (Hnames & Hjunk).
  destruct (scan_dir_lists (card_dir cd) Hnames (card_junk cd) [] 0 Hjunk)
    as (recs & _ & _ & E3); [lia|].
  rewrite Z.add_0_l in E3.
  rewrite setup_run. cbv zeta. rewrite E3.
  destruct (card_ok cd); cbn [negb].
  - destruct (card_writable cd); cbn [negb].
    + destruct (Z.eqb_spec (u16 (Z.of_nat (List.length (listed (card_dir cd))))) 0)
        as [E|E].
      * cbn [result after]. split; [split; auto|].
        intros _. eexists. world_fields. reflexivity.
      * cbn [result]. split; [|discriminate].
        split; [discriminate|]. intros [F|[F|F]]; congruence.
    + cbn [result after]. split; [split; auto|].
      intros _. eexists. world_fields. reflexivity.
  - cbn [result after]. split; [split; auto|].
    intros _. eexists. world_fields. reflexivity.
Qed.





End StartUp.

Section Return.

Context {smf : Type} `{Sequencer smf}.

Lemma begin_pass (k : keys) (w : world smf) (data : list ascii) :
  inv w data -> loop_s w = LCDSeq -> lcd_s w = LSBegin ->
  exists w2,
    loop k w = Ret tt w2 /\
    loop_s w2 = LCDSeq /\ lcd_s w2 = LSShowFile /\
    plIndex w2 = plIndex w /\ midi_s w2 = midi_s w /\
    trace w2 = trace w ++ message_trace 0 0 "Select play:" true.
Proof.
  intros I L Hs.
  rewrite loop_lcd by exact L. rewrite lcd_begin by exact Hs. cbv zeta.
  rewrite (inv_card w data I).
  destruct (f_open (plFile w)); eexists; repeat split.
Qed.

(** X16: When a session closes, three passes lead back to [LSSelect] on the
    cursor the session was started from, with the same play list record in
    [fname] and the playback machine parked; no button is read on the way. *)
Theorem back_to_the_same_name (k1 k2 k3 : keys) (w : world smf)
        (data : list ascii) :
  reachable w -> sd_playlist w = Some data ->
  loop_s w = MIDISeq -> midi_s w = MSClose ->
  exists w3,
    run [k1; k2; k3] w = Ret tt w3 /\
    loop_s w3 = LCDSeq /\ lcd_s w3 = LSSelect /\ midi_s w3 = MSBegin /\
    plIndex w3 = plIndex w /\
    fname w3 = entry data (plIndex w) ++ [NUL] /\
    btn_reads (trace w3) = btn_reads (trace w).
Proof.
  intros R Hcard L Hs.
  destruct (reachable_inv w R) as (d & I).
  assert (d = data) by (pose proof (inv_card w d I); congruence). subst d.
  pose proof (proj2 (reachable_parked w R) L) as Hl.
  cbn [run].
  pose proof (loop_inv k1 w) as Inv1.
  rewrite (loop_midi k1 w L), (midi_close k1 MIDISeq w Hs) in *.
  set (w1 := set_loop_s LCDSeq
               (set_midi_s MSBegin
                  (set_SMF (smf_close (SMF w))
                     (log (Smf SmfClose :: silence_trace) w)))) in *.
  assert (I1 : inv w1 data) by (apply Inv1; [exact I|reflexivity]).
  assert (L1 : loop_s w1 = LCDSeq) by reflexivity.
  assert (S1 : lcd_s w1 = LSBegin) by exact Hl.
  destruct (begin_pass k2 w1 data I1 L1 S1)
    as (w2 & E2 & L2 & S2 & X2 & M2 & T2).
  rewrite E2.
  assert (I2 : inv w2 data) by (eapply loop_inv; eassumption).
  destruct (show_pass k3 w2 data I2 L2 S2)
    as (w3 & E3 & L3 & S3 & X3 & _ & F3 & T3).
  rewrite E3. exists w3.
  split; [reflexivity|]. split; [exact L3|]. split; [exact S3|].
  split.
  { pose proof (proj1 (one_machine_nav_play k3 w2) L2) as (M3 & _).
    rewrite E3 in M3. cbn [after] in M3. rewrite M3, M2. reflexivity. }
  split; [rewrite X3, X2; reflexivity|].
  split; [rewrite F3, X2; reflexivity|].
  rewrite T3, T2. subst w1. world_fields.
  rewrite !btn_reads_app, !btn_reads_message.
  change (btn_reads (Smf SmfClose :: silence_trace)) with (@nil nat).
  cbn [btn_reads]. now rewrite !app_nil_r.
Qed.

End Return.

(** * The further properties at concrete inputs *)

Lemma card_abc_fine : card_fine card_abc.
Proof.
  split; [|reflexivity].
  repeat (apply Forall_cons || apply Forall_nil);
    (split; [cbn; lia|split; [cbn; intuition discriminate|intros _; cbn; lia]]).
Defined.

Lemma playing_abc_reachable : reachable playing_abc.
Proof.
  apply (run_reachable
           [no_keys; no_keys; only_key BTN_SELECT; no_keys; no_keys] boot_abc).
  - apply reach_boot. split; [lia|reflexivity].
  - vm_compute. reflexivity.
Defined.

Lemma LCDMessage_clears_to_end_witness :
  exists blanks,
    LCDMessage 1 0 "A.MID" true no_keys boot_abc
    = Ret tt (log ([LcdSetCursor 0 1; LcdPrint "A.MID"]
                     ++ repeat (LcdWrite " ") blanks) boot_abc) /\
    blanks = 11%nat.
Proof.
  destruct (LCDMessage_clears_to_end 1 0 "A.MID" no_keys boot_abc)
    as (blanks & E & B & _).
  exists blanks. split; [exact E|]. rewrite B. reflexivity.
Defined.


Lemma keys_unread_elsewhere_witness :
  lcd_s showing_abc <> LSSelect /\
  lcdFSM LCDSeq (only_key BTN_SELECT) showing_abc
  = lcdFSM LCDSeq no_keys showing_abc.
Proof.
  assert (Hs : lcd_s showing_abc <> LSSelect) by (vm_compute; discriminate).
  split; [exact Hs|].
  exact (proj1 (proj1 (keys_unread_elsewhere (only_key BTN_SELECT) no_keys
                         LCDSeq showing_abc) Hs)).
Defined.

Lemma one_machine_per_pass_witness :
  loop_s playing_abc = MIDISeq /\
  plIndex (after (loop (only_key BTN_LEFT) playing_abc)) = plIndex playing_abc.
Proof.
  assert (L : loop_s playing_abc = MIDISeq) by (vm_compute; reflexivity).
  split; [exact L|].
  destruct (proj2 (one_machine_per_pass (only_key BTN_LEFT) playing_abc) L)
    as (_ & _ & _ & P & _).
  exact P.
Defined.


Lemma long_last_reachable : reachable long_last.
Proof.
  apply (run_reachable [no_keys; no_keys; only_key BTN_DOWN] boot_300).
  - apply reach_boot. split; [lia|vm_compute; discriminate].
  - vm_compute. reflexivity.
Defined.

Lemma cursor_always_valid_witness :
  reachable long_last /\ plCount long_last = 300 /\
  0 <= plIndex long_last <= plCount long_last - 1.
Proof.
  split; [exact long_last_reachable|].
  split; [vm_compute; reflexivity|].
  exact (proj1 (cursor_always_valid long_last long_last_reachable)).
Defined.

Lemma idle_machine_is_parked_witness :
  reachable playing_abc /\ loop_s playing_abc = MIDISeq /\
  lcd_s playing_abc = LSBegin.
Proof.
  assert (L : loop_s playing_abc = MIDISeq) by (vm_compute; reflexivity).
  split; [exact playing_abc_reachable|]. split; [exact L|].
  exact (proj2 (idle_machine_is_parked playing_abc playing_abc_reachable) L).
Defined.

Lemma display_follows_cursor_witness :
  reachable selecting_abc /\
  first_press nav_order (only_key BTN_DOWN) = Some BTN_DOWN /\
  exists w2,
    run [only_key BTN_DOWN; no_keys] selecting_abc = Ret tt w2 /\
    plIndex w2 = 2 /\ cstr (fname w2) = "C.MID"%string.
Proof.
  assert (Hcard : sd_playlist selecting_abc = Some (playlist_of abc))
    by (vm_compute; reflexivity).
  assert (L : loop_s selecting_abc = LCDSeq) by (vm_compute; reflexivity).
  assert (Hs : lcd_s selecting_abc = LSSelect) by (vm_compute; reflexivity).
  split; [exact selecting_abc_reachable|]. split; [reflexivity|].
  destruct (display_follows_cursor (only_key BTN_DOWN) no_keys selecting_abc
              (playlist_of abc) BTN_DOWN selecting_abc_reachable Hcard L Hs
              eq_refl)
    as (w2 & E & _ & _ & X & F & _).
  - discriminate.
  - assert (X2 : plIndex w2 = 2) by (rewrite X; vm_compute; reflexivity).
    exists w2. split; [exact E|]. split; [exact X2|].
    rewrite F, X2. vm_compute. reflexivity.
Defined.

Lemma there_and_back_witness :
  reachable selecting_abc /\
  exists w4,
    run [only_key BTN_RIGHT; no_keys; only_key BTN_LEFT; no_keys] selecting_abc
    = Ret tt w4 /\
    plIndex w4 = plIndex selecting_abc /\ fname w4 = fname selecting_abc.
Proof.
  assert (L : loop_s selecting_abc = LCDSeq) by (vm_compute; reflexivity).
  assert (Hs : lcd_s selecting_abc = LSSelect) by (vm_compute; reflexivity).
  split; [exact selecting_abc_reachable|].
  destruct (there_and_back (only_key BTN_RIGHT) (only_key BTN_LEFT) no_keys
              no_keys selecting_abc selecting_abc_reachable L Hs eq_refl eq_refl)
    as (Go & _).
  destruct Go as (w4 & E & _ & X & F).
  - vm_compute. discriminate.
  - vm_compute. reflexivity.
  - exists w4. repeat split; assumption.
Defined.

Lemma selected_name_is_loaded_witness :
  reachable selecting_abc /\
  exists w3,
    run [only_key BTN_SELECT; no_keys; no_keys] selecting_abc = Ret tt w3 /\
    smf_calls (trace w3) = [SmfLoad "A.MID"].
Proof.
  assert (Hcard : sd_playlist selecting_abc = Some (playlist_of abc))
    by (vm_compute; reflexivity).
  assert (L : loop_s selecting_abc = LCDSeq) by (vm_compute; reflexivity).
  assert (Hs : lcd_s selecting_abc = LSSelect) by (vm_compute; reflexivity).
  split; [exact selecting_abc_reachable|].
  destruct (selected_name_is_loaded (only_key BTN_SELECT) no_keys no_keys
              selecting_abc (playlist_of abc) selecting_abc_reachable Hcard L Hs
              eq_refl)
    as (w3 & E & _ & _ & C & _).
  exists w3. split; [exact E|]. rewrite C. vm_compute. reflexivity.
Defined.


Lemma end_of_data_closes_witness :
  midi_s finished_abc = MSProcess /\
  smf_isEOF (SMF finished_abc) = true /\
  exists w1 w2,
    loop (only_key BTN_LEFT) finished_abc = Ret tt w1 /\ midi_s w1 = MSClose /\
    loop no_keys w1 = Ret tt w2 /\ loop_s w2 = LCDSeq.
Proof.
  assert (L : loop_s finished_abc = MIDISeq) by (vm_compute; reflexivity).
  assert (Hs : midi_s finished_abc = MSProcess) by (vm_compute; reflexivity).
  assert (He : smf_isEOF (SMF finished_abc) = true) by (vm_compute; reflexivity).
  split; [exact Hs|]. split; [exact He|].
  destruct (end_of_data_closes (only_key BTN_LEFT) no_keys finished_abc L Hs He)
    as (w1 & w2 & t & E1 & M1 & _ & E2 & _ & L2 & _).
  exists w1, w2. repeat split; assumption.
Defined.

Lemma playlist_file_lists_midi_files_witness :
  card_fine card_abc /\
  exists data,
    createPlaylistFile card_abc no_keys (power_on None tune)
    = Ret 3 (set_sd_playlist (Some data) (power_on None tune)) /\
    cstr (entry data 1) = "b.mid"%string.
Proof.
  split; [exact card_abc_fine|].
  destruct (playlist_file_lists_midi_files card_abc no_keys (power_on None tune)
              card_abc_fine eq_refl) as (data & E & _ & N & _).
  exists data. split; [exact E|].
  exact (N 1%nat "b.mid"%string eq_refl).
Defined.

Lemma card_empty_fine : card_fine card_empty.
Proof.
  split; [|reflexivity].
  repeat (apply Forall_cons || apply Forall_nil);
    (split; [cbn; lia|split; [cbn; intuition discriminate|intros _; cbn; lia]]).
Defined.

Lemma setup_hangs_iff_witness :
  card_fine card_empty /\
  result (setup card_empty no_keys (power_on None tune)) = None.
Proof.
  split; [exact card_empty_fine|].
  apply (proj1 (setup_hangs_iff card_empty no_keys (power_on None tune)
                  card_empty_fine)).
  right. right. reflexivity.
Defined.


Lemma back_to_the_same_name_witness :
  exists w0 w3,
    reachable w0 /\ midi_s w0 = MSClose /\
    run [only_key BTN_SELECT; no_keys; no_keys] w0 = Ret tt w3 /\
    lcd_s w3 = LSSelect /\ cstr (fname w3) = "A.MID"%string.
Proof.
  set (w0 := after (loop (only_key BTN_RIGHT) playing_abc)).
  assert (E0 : loop (only_key BTN_RIGHT) playing_abc = Ret tt w0)
    by (vm_compute; reflexivity).
  assert (R0 : reachable w0)
    by (exact (reach_loop _ _ _ playing_abc_reachable E0)).
  assert (Hcard : sd_playlist w0 = Some (playlist_of abc))
    by (vm_compute; reflexivity).
  assert (L : loop_s w0 = MIDISeq) by (vm_compute; reflexivity).
  assert (Hs : midi_s w0 = MSClose) by (vm_compute; reflexivity).
  assert (Hi : plIndex w0 = 0) by (vm_compute; reflexivity).
  destruct (back_to_the_same_name (only_key BTN_SELECT) no_keys no_keys w0
              (playlist_of abc) R0 Hcard L Hs)
    as (w3 & E & _ & S3 & _ & _ & F & _).
  exists w0, w3. split; [exact R0|]. split; [exact Hs|].
  split; [exact E|]. split; [exact S3|].
  rewrite F, Hi. vm_compute. reflexivity.
Defined.
